(** * TMDB actor plugin: catalog client and data formatter

    A shallow embedding of [APIProvider/provider.ts] (the catalog client)
    and of [APIProvider/DataFormatter.ts] (the normalisation engine), with
    the properties that the specification states about them.

    Conventions of the embedding:
    - a JavaScript string is its sequence of UTF-16 code units ([list N]);
    - a JavaScript number that the code uses as an integer (ids, season
      numbers, episode counts) is a [Z]; a number that carries a fraction
      (popularity, ratings) is an exact rational [Q], so the rounding of
      IEEE doubles is outside the model;
    - a field that the code reads through [x || d], [x ? .. : ..] or [?.]
      is an [option];
    - an [async] method is a computation that records the requests it
      issues and yields a settled promise. *)

From Stdlib Require Import ZArith QArith Lqa String Ascii DecimalString.
From Stdlib Require Import Sorted Permutation.
From stdpp Require Import base option list sorting gmap.

Local Open Scope N_scope.

(** ** JavaScript strings *)

Module JS.

Abbreviation jsstring := (list N).

(** An ASCII literal as a string of code units. *)
Definition str (s : string) : jsstring :=
  N_of_ascii <$> list_ascii_of_string s.
Arguments str : simpl never.

(** [String(n)] for an integral number. *)
Definition Number_toString (z : Z) : jsstring :=
  str (NilZero.string_of_int (Z.to_int z)).

(** ECMAScript [WhiteSpace] and [LineTerminator]: the class [\s] of a
    regular expression and the characters that [trim] removes. *)
Definition isWhiteSpace (c : N) : bool :=
  (c =? 9) || (c =? 10) || (c =? 11) || (c =? 12) || (c =? 13)
  || (c =? 32) || (c =? 160) || (c =? 5760)
  || ((8192 <=? c) && (c <=? 8202))
  || (c =? 8232) || (c =? 8233) || (c =? 8239) || (c =? 8287)
  || (c =? 12288) || (c =? 65279).

Definition isUpperAZ (c : N) : bool := (65 <=? c) && (c <=? 90).
Definition isLowerAZ (c : N) : bool := (97 <=? c) && (c <=? 122).
Definition isDigit (c : N) : bool := (48 <=? c) && (c <=? 57).

(** The class [\w], which decides where [\b] matches. *)
Definition isWordChar (c : N) : bool :=
  isUpperAZ c || isLowerAZ c || isDigit c || (c =? 95).

Fixpoint trimStart (s : jsstring) : jsstring :=
  match s with
  | [] => []
  | c :: r => if isWhiteSpace c then trimStart r else s
  end.

Definition trimEnd (s : jsstring) : jsstring :=
  reverse (trimStart (reverse s)).

(** [s.trim()] *)
Definition trim (s : jsstring) : jsstring := trimEnd (trimStart s).

(** [s.startsWith(q)] *)
Fixpoint startsWith (s q : jsstring) : bool :=
  match q, s with
  | [], _ => true
  | _ :: _, [] => false
  | b :: q', a :: s' => (a =? b) && startsWith s' q'
  end.

(** [s.includes(q)] *)
Fixpoint includes (s q : jsstring) : bool :=
  startsWith s q ||
  match s with
  | [] => false
  | _ :: s' => includes s' q
  end.

(** [s.replace(/:/g, '')] *)
Definition removeColons (s : jsstring) : jsstring :=
  filter (fun c => c <> 58) s.

(** [s.replace(/\n/g, ' ')] *)
Definition newlinesToSpaces (s : jsstring) : jsstring :=
  (fun c => if c =? 10 then 32 else c) <$> s.

(** [s.replace(/\s+/g, ' ')]: every maximal run of white space becomes
    one space. [inRun] tells that the previous unit was white space. *)
Fixpoint collapseWhiteSpace (inRun : bool) (s : jsstring) : jsstring :=
  match s with
  | [] => []
  | c :: r =>
      if isWhiteSpace c
      then (if inRun then collapseWhiteSpace true r
            else 32 :: collapseWhiteSpace true r)
      else c :: collapseWhiteSpace false r
  end.

(** [s.replace(/\b[A-Z]\.\s*/g, '')], scanning left to right. [skip] tells
    that a match has just consumed [X.] and is still taking white space;
    [prevWord] tells whether the unit before the current one is a word
    character, which is what [\b] looks at before a capital letter. *)
Fixpoint removeInitials (skip prevWord : bool) (s : jsstring) : jsstring :=
  match s with
  | [] => []
  | c :: r =>
      if skip && isWhiteSpace c then removeInitials true false r
      else
        match r with
        | d :: r' =>
            if negb prevWord && isUpperAZ c && (d =? 46)
            then removeInitials true false r'
            else c :: removeInitials false (isWordChar c) r
        | [] => [c]
        end
  end.

(** ASCII case folding. [String.prototype.toLowerCase] agrees with it on
    every string whose letters are ASCII. *)
Definition asciiToLowerCase (s : jsstring) : jsstring :=
  (fun c => if isUpperAZ c then c + 32 else c) <$> s.

End JS.

Import JS.

(** ** The data formatter ([DataFormatter.ts]) *)

Module Formatter.

(** *** Constants *)

Definition MAX_ARRAY_ITEMS : nat := 50.
Definition MAX_FACTS_COUNT : nat := 5.

(** [TMDB_CONFIG] *)
Definition IMAGE_BASE_URL : jsstring := str "https://image.tmdb.org/t/p/".
Definition POSTER_ORIGINAL : jsstring := str "original".
Definition POSTER_W500 : jsstring := str "w500".
Definition POSTER_W185 : jsstring := str "w185".
Definition BACKDROP_ORIGINAL : jsstring := str "original".
Definition BACKDROP_W1280 : jsstring := str "w1280".
Definition PROFILE_W185 : jsstring := str "w185".

(** Russian labels, as code units. *)
Definition ru_director : jsstring :=
  [1088; 1077; 1078; 1080; 1089; 1089; 1077; 1088].
Definition ru_writer : jsstring :=
  [1089; 1094; 1077; 1085; 1072; 1088; 1080; 1089; 1090].
Definition ru_producer : jsstring :=
  [1087; 1088; 1086; 1076; 1102; 1089; 1077; 1088].
Definition ru_actor : jsstring := [1072; 1082; 1090; 1077; 1088].
Definition ru_female : jsstring :=
  [1046; 1077; 1085; 1089; 1082; 1080; 1081].
Definition ru_male : jsstring :=
  [1052; 1091; 1078; 1089; 1082; 1086; 1081].
Definition ru_unspecified : jsstring :=
  [1053; 1077; 32; 1091; 1082; 1072; 1079; 1072; 1085].

Record Mapping := mkMapping {
  map_enProfession : jsstring;
  map_profession : jsstring
}.

(** The own entries of [PROFESSION_MAP]. *)
Definition PROFESSION_MAP : gmap jsstring Mapping :=
  list_to_map
    [ (str "Director", mkMapping (str "director") ru_director);
      (str "Writer", mkMapping (str "writer") ru_writer);
      (str "Screenplay", mkMapping (str "writer") ru_writer);
      (str "Producer", mkMapping (str "producer") ru_producer);
      (str "Executive Producer", mkMapping (str "producer") ru_producer) ].

(** The names that an object literal inherits from [Object.prototype]:
    reading one of them from a table gives the inherited member, which is
    truthy and is not a number. *)
Definition Object_prototype_names : list jsstring :=
  [ str "constructor"; str "hasOwnProperty"; str "isPrototypeOf";
    str "propertyIsEnumerable"; str "toLocaleString"; str "toString";
    str "valueOf"; str "__proto__"; str "__defineGetter__";
    str "__defineSetter__"; str "__lookupGetter__"; str "__lookupSetter__" ].

(** What [table[key]] gives on an object literal: an own entry, or the
    member inherited under the name [key]. *)
Inductive Member (A : Type) : Type :=
| OwnMember (a : A)
| InheritedMember.

Arguments OwnMember {A} a.
Arguments InheritedMember {A}.

(** [table[key]]: there is no own-property check, so an inherited name
    is found too; [None] is [undefined]. *)
Definition member {A} (table : gmap jsstring A) (key : jsstring)
    : option (Member A) :=
  match table !! key with
  | Some a => Some (OwnMember a)
  | None =>
      if bool_decide (key ∈ Object_prototype_names)
      then Some InheritedMember else None
  end.

Inductive FormatType :=
| SHORT_VALUE | LONG_TEXT | URL | LINK | LINK_WITH_PATH | LINK_ID_WITH_PATH.

(** *** Raw payloads *)

(** An entry of [images.posters], [images.profiles], ... *)
Record RawImage := mkRawImage {
  iso_639_1 : option jsstring;
  file_path : jsstring
}.

Record RawImages := mkRawImages {
  posters : option (list RawImage);
  backdrops : option (list RawImage);
  logos : option (list RawImage)
}.

(** An entry of [credits.cast] or [credits.crew]. *)
Record RawCredit := mkRawCredit {
  credit_id : Z;
  credit_name : jsstring;
  original_name : option jsstring;
  profile_path : option jsstring;
  job : option jsstring;
  department : option jsstring
}.

Record RawCredits := mkRawCredits {
  cast : option (list RawCredit);
  crew : option (list RawCredit)
}.

Record RawSeason := mkRawSeason {
  season_number : Z;
  episode_count : Z
}.

(** The fields of a TV details payload that the modelled part of the
    conversion reads. *)
Record RawTVDetails := mkRawTVDetails {
  tv_id : Z;
  tv_name : option jsstring;
  tv_overview : option jsstring;
  tv_poster_path : option jsstring;
  tv_backdrop_path : option jsstring;
  tv_homepage : option jsstring;
  tv_status : option jsstring;
  tv_seasons : option (list RawSeason);
  tv_vote_average : option Q;
  tv_first_air_date : option jsstring;
  tv_external_imdb_id : option jsstring
}.

(** *** Canonical record *)

Record ImageUrls := mkImageUrls {
  url : jsstring;
  previewUrl : jsstring
}.

Record TMDBPerson := mkPerson {
  person_id : Z;
  person_name : jsstring;
  person_enName : jsstring;
  person_enProfession : option jsstring;
  person_profession : option jsstring;
  person_photo : option jsstring
}.

Record SeasonInfo := mkSeasonInfo {
  number : Z;
  episodesCount : Z
}.

(** [TMDBFullInfo], restricted to the fields that the modelled functions
    write or read. A field that a conversion leaves out is [None]. *)
Record TMDBFullInfo := mkFullInfo {
  fi_id : Z;
  fi_name : jsstring;
  fi_type : jsstring;
  fi_description : option jsstring;
  fi_poster : option ImageUrls;
  fi_backdrop : option ImageUrls;
  fi_logo : option ImageUrls;
  fi_persons : list TMDBPerson;
  fi_isSeries : bool;
  fi_TMDBLink : option jsstring;
  fi_status : option jsstring;
  fi_seasonsInfo : option (list SeasonInfo);
  fi_rating_tmdb : option Q;
  fi_externalId_imdb : option jsstring;
  fi_slogan : option jsstring;
  fi_premiere_world : option jsstring;
  fi_deathday : option jsstring;
  fi_gender : option Z;
  fi_birthPlace : option jsstring;
  fi_deathPlace : option jsstring;
  fi_alsoKnownAs : option (list jsstring);
  fi_hometown : option jsstring;
  fi_homepage : option jsstring;
  fi_knownForDepartment : option jsstring
}.

(** *** JavaScript idioms *)

(** [x || d] on a string that may be absent: the empty string is falsy. *)
Definition strOr (x : option jsstring) (d : jsstring) : jsstring :=
  match x with
  | Some (c :: r) => c :: r
  | _ => d
  end.

(** Truthiness of a string that may be absent. *)
Definition truthy (x : option jsstring) : option jsstring :=
  match x with
  | Some (c :: r) => Some (c :: r)
  | _ => None
  end.

(** [x || 0] on a number that may be absent. *)
Definition numOr0 (x : option Q) : Q := default 0%Q x.

(** [arr.find(p)] *)
Definition Array_find {A} (P : A -> Prop) `{forall x, Decision (P x)}
    (l : list A) : option A :=
  snd <$> list_find P l.

(** [Math.ceil(a / b)] for integers with [0 < b]. *)
Definition Math_ceil_div (a b : Z) : Z := (- ((- a) / b))%Z.

(** *** Images *)

(** [buildImageUrl] *)
Definition buildImageUrl (path size : jsstring) : jsstring :=
  IMAGE_BASE_URL ++ size ++ path.

Definition imageUrlsOf (img : RawImage) : ImageUrls :=
  {| url := buildImageUrl (file_path img) POSTER_ORIGINAL;
     previewUrl := buildImageUrl (file_path img) POSTER_W500 |}.

Inductive ImageRole := role_logo | role_poster | role_backdrop.

(** [extractBestImage]: language priority ru, then en, then any. The role
    argument is not read by the body. *)
Definition extractBestImage (images : option (list RawImage))
    (type : ImageRole) : option ImageUrls :=
  match images with
  | None | Some [] => None
  | Some ((anyImage :: _) as images) =>
      match Array_find (fun img => iso_639_1 img = Some (str "ru")) images with
      | Some ruImage => Some (imageUrlsOf ruImage)
      | None =>
          match Array_find (fun img => iso_639_1 img = Some (str "en")) images with
          | Some enImage => Some (imageUrlsOf enImage)
          | None => Some (imageUrlsOf anyImage)
          end
      end
  end.

(** *** Credits *)

Definition photoOf (person : RawCredit) : option jsstring :=
  (fun path => buildImageUrl path PROFILE_W185) <$> truthy (profile_path person).

Definition personOf (person : RawCredit)
    (enProfession profession : option jsstring) : TMDBPerson :=
  {| person_id := credit_id person;
     person_name := credit_name person;
     person_enName := strOr (original_name person) (credit_name person);
     person_enProfession := enProfession;
     person_profession := profession;
     person_photo := photoOf person |}.

(** The body of the [forEach] over the cast: one [push]. *)
Definition pushCast (persons : list TMDBPerson) (person : RawCredit)
    : list TMDBPerson :=
  persons ++ [personOf person (Some (str "actor")) (Some ru_actor)].

(** The body of the [forEach] over the crew. A job that is missing is
    looked up as the key [undefined], which the table does not have. The
    member inherited under a job such as [constructor] is truthy and has
    neither an [enProfession] nor a [profession]: the entry is kept, with
    both [undefined]. *)
Definition pushCrew (persons : list TMDBPerson) (person : RawCredit)
    : list TMDBPerson :=
  let mapping := job person ≫= member PROFESSION_MAP in
  if bool_decide (mapping = None)
     && bool_decide (department person = Some (str "Writing"))
  then persons ++ [personOf person (Some (str "writer")) (Some ru_writer)]
  else
    match mapping with
    | Some (OwnMember m) =>
        persons ++ [personOf person (Some (map_enProfession m))
                                    (Some (map_profession m))]
    | Some InheritedMember => persons ++ [personOf person None None]
    | None => persons
    end.

(** [convertCreditsToPersons] *)
Definition convertCreditsToPersons (credits : RawCredits) : list TMDBPerson :=
  let persons := [] in
  let persons := foldl pushCast persons (take 20 (default [] (cast credits))) in
  let persons := foldl pushCrew persons (default [] (crew credits)) in
  persons.

(** *** TV conversion *)

(** The part of [convertTVShowToTMDBFormat] that fills the modelled fields
    of the canonical record. *)
Definition convertTVShowToTMDBFormat (details : RawTVDetails)
    (credits : RawCredits) (images : option RawImages) : TMDBFullInfo :=
  let poster :=
    match images ≫= posters with
    | Some ((_ :: _) as l) => extractBestImage (Some l) role_poster
    | _ =>
        (fun path =>
           {| url := buildImageUrl path POSTER_ORIGINAL;
              previewUrl := buildImageUrl path POSTER_W500 |})
        <$> truthy (tv_poster_path details)
    end in
  let backdrop :=
    match images ≫= backdrops with
    | Some ((_ :: _) as l) => extractBestImage (Some l) role_backdrop
    | _ =>
        (fun path =>
           {| url := buildImageUrl path BACKDROP_ORIGINAL;
              previewUrl := buildImageUrl path BACKDROP_W1280 |})
        <$> truthy (tv_backdrop_path details)
    end in
  let logo :=
    match images ≫= logos with
    | Some ((_ :: _) as l) => extractBestImage (Some l) role_logo
    | _ => None
    end in
  {| fi_id := tv_id details;
     fi_name := strOr (tv_name details) [];
     fi_type := str "tv-series";
     fi_description := Some (strOr (tv_overview details) []);
     fi_poster := poster;
     fi_backdrop := backdrop;
     fi_logo := logo;
     fi_persons := convertCreditsToPersons credits;
     fi_isSeries := true;
     fi_TMDBLink := tv_homepage details;
     fi_status := tv_status details;
     fi_seasonsInfo :=
       Some ((fun s => {| number := season_number s;
                          episodesCount := episode_count s |})
             <$> filter (fun s => (season_number s > 0)%Z)
                        (default [] (tv_seasons details)));
     fi_rating_tmdb := Some (numOr0 (tv_vote_average details));
     fi_externalId_imdb := tv_external_imdb_id details;
     fi_slogan := None;
     fi_premiere_world := tv_first_air_date details;
     fi_deathday := None;
     fi_gender := None;
     fi_birthPlace := None;
     fi_deathPlace := None;
     fi_alsoKnownAs := None;
     fi_hometown := None;
     fi_homepage := None;
     fi_knownForDepartment := None |}.

(** *** Aggregates *)

Record SeasonsData := mkSeasonsData {
  count : Z;
  averageEpisodesPerSeason : Z
}.

(** [calculateSeasonsData] *)
Definition calculateSeasonsData (seasonsInfo : option (list SeasonInfo))
    : SeasonsData :=
  match seasonsInfo with
  | None | Some [] => {| count := 0; averageEpisodesPerSeason := 0 |}
  | Some seasonsInfo =>
      let totalEpisodes :=
        foldl (fun total season => (total + episodesCount season)%Z) 0%Z
              seasonsInfo in
      let averageEpisodes :=
        Math_ceil_div totalEpisodes (Z.of_nat (length seasonsInfo)) in
      {| count := Z.of_nat (length seasonsInfo);
         averageEpisodesPerSeason := averageEpisodes |}
  end.

(** *** Array formatting *)

(** An element of the array handed to [formatArray]: a string, or an
    object with a name and maybe an id. *)
Inductive Item :=
| ItemString (s : jsstring)
| ItemObject (name : jsstring) (id : option Z).

Definition dquote : jsstring := [34].

(** [cleanTextForMetadata] *)
Definition cleanTextForMetadata (text : jsstring) : jsstring :=
  match text with
  | [] => []
  | _ => trim (removeColons text)
  end.

(** [s.trim() !== ''] *)
Definition nonBlank (s : jsstring) : Prop := trim s <> [].

(** Truthiness of an id: present and not zero. *)
Definition truthyId (id : option Z) : option Z :=
  match id with
  | Some z => if bool_decide (z = 0%Z) then None else Some z
  | None => None
  end.

(** A usable folder path: [folderPath && folderPath.trim() !== '']. *)
Definition usablePath (folderPath : option jsstring) : option jsstring :=
  match truthy folderPath with
  | Some path => if bool_decide (nonBlank path) then Some path else None
  | None => None
  end.

(** The first [map] of [formatArray]: an object with a non-empty name
    stands for its name, anything else stands for itself. *)
Definition toStringItem (item : Item) : Item :=
  match item with
  | ItemObject (c :: r) _ => ItemString (c :: r)
  | _ => item
  end.

(** The type guard of the [filter]: strings that are not blank. *)
Definition keptString (item : Item) : option jsstring :=
  match item with
  | ItemString s => if bool_decide (nonBlank s) then Some s else None
  | ItemObject _ _ => None
  end.

(** The filter of the id-link mode: objects whose name is not blank. *)
Definition keptObject (item : Item) : option (jsstring * option Z) :=
  match item with
  | ItemObject name id =>
      if bool_decide (nonBlank name) then Some (name, id) else None
  | ItemString _ => None
  end.

(** [formatArray] *)
Definition formatArray (items : list Item) (formatType : FormatType)
    (folderPath : option jsstring) (maxItems : nat) : list jsstring :=
  match formatType with
  | LINK_ID_WITH_PATH =>
      (fun item : jsstring * option Z =>
         let cleanName := cleanTextForMetadata item.1 in
         match usablePath folderPath, truthyId item.2 with
         | Some path, Some id =>
             dquote ++ str "[[" ++ path ++ str "/" ++ Number_toString id
               ++ str "|" ++ cleanName ++ str "]]" ++ dquote
         | _, Some id =>
             dquote ++ str "[[" ++ Number_toString id ++ str "|" ++ cleanName
               ++ str "]]" ++ dquote
         | _, None => dquote ++ str "[[" ++ cleanName ++ str "]]" ++ dquote
         end)
      <$> take maxItems (omap keptObject items)
  | _ =>
      let stringItems := toStringItem <$> items in
      let filteredItems := take maxItems (omap keptString stringItems) in
      match formatType with
      | SHORT_VALUE => cleanTextForMetadata <$> filteredItems
      | LONG_TEXT =>
          (fun item =>
             let cleanedItem :=
               trim (collapseWhiteSpace false (newlinesToSpaces item)) in
             dquote ++ cleanedItem ++ dquote)
          <$> filteredItems
      | URL => trim <$> filteredItems
      | LINK =>
          (fun item =>
             let cleanName := cleanTextForMetadata item in
             dquote ++ str "[[" ++ cleanName ++ str "]]" ++ dquote)
          <$> filteredItems
      | LINK_WITH_PATH =>
          (fun item =>
             let cleanName := cleanTextForMetadata item in
             match usablePath folderPath with
             | Some path =>
                 dquote ++ str "[[" ++ path ++ str "/" ++ cleanName
                   ++ str "]]" ++ dquote
             | None => dquote ++ str "[[" ++ cleanName ++ str "]]" ++ dquote
             end)
          <$> filteredItems
      | LINK_ID_WITH_PATH => filteredItems
      end
  end.

(** *** Names *)

(** The character class of [englishOnlyRegex]: letters, white space,
    hyphen, apostrophe, double quote, period, comma and parentheses. *)
Definition isEnglishChar (c : N) : bool :=
  isUpperAZ c || isLowerAZ c || isWhiteSpace c
  || (c =? 45) || (c =? 39) || (c =? 34) || (c =? 46) || (c =? 44)
  || (c =? 40) || (c =? 41).

(** [englishOnlyRegex.test(s)]: one or more units, all of the class. *)
Definition englishOnlyRegex_test (s : jsstring) : bool :=
  match s with
  | [] => false
  | _ => forallb isEnglishChar s
  end.

(** The simplified form that [extractEnglishNamesOnly] compares. *)
Definition baseNameOf (trimmedName : jsstring) : jsstring :=
  trim (collapseWhiteSpace false
          (removeInitials false false
             (collapseWhiteSpace false trimmedName))).

Section Names.

(** [String.prototype.toLowerCase], a primitive of the runtime. *)
Variable toLowerCase : jsstring -> jsstring.

Definition normalizeName (name : jsstring) : jsstring :=
  trim (collapseWhiteSpace false (toLowerCase name)).

(** [areSimilarNames] *)
Definition areSimilarNames (name1 name2 : jsstring) : bool :=
  let norm1 := normalizeName name1 in
  let norm2 := normalizeName name2 in
  includes norm1 norm2 || includes norm2 norm1.

(** One turn of the loop of [extractEnglishNamesOnly]; the state is
    [(uniqueNames, processedBaseNames)]. *)
Definition englishNamesStep (st : list jsstring * list jsstring)
    (name : jsstring) : list jsstring * list jsstring :=
  let '(uniqueNames, processedBaseNames) := st in
  let trimmedName := trim name in
  let baseName := baseNameOf trimmedName in
  let isDuplicate :=
    existsb (fun processedName => areSimilarNames baseName processedName)
            processedBaseNames in
  if isDuplicate then (uniqueNames, processedBaseNames)
  else (uniqueNames ++ [trimmedName], processedBaseNames ++ [baseName]).

(** [extractEnglishNamesOnly] (every caller passes an array). *)
Definition extractEnglishNamesOnly (names : list jsstring) : list jsstring :=
  let englishNames :=
    filter (fun name => englishOnlyRegex_test (trim name) = true) names in
  (foldl englishNamesStep ([], []) englishNames).1.

(** One turn of the loop of [combineNamesForAliases]. *)
Definition combineStep (combinedNames : list jsstring) (name : jsstring)
    : list jsstring :=
  match name with
  | [] => combinedNames
  | _ =>
      let isDuplicate :=
        existsb (fun mainName =>
                   match mainName with
                   | [] => false
                   | _ => areSimilarNames name mainName
                   end) combinedNames in
      if isDuplicate then combinedNames else combinedNames ++ [name]
  end.

(** [combineNamesForAliases] *)
Definition combineNamesForAliases (mainNames alsoKnownAsNames : list jsstring)
    : list jsstring :=
  let combinedNames := foldl combineStep mainNames alsoKnownAsNames in
  filter nonBlank combinedNames.

(** *** Presentation record *)

(** The block of fields that [createMovieShowFrom] spreads into the
    record last: both arms of the conditional have these keys and no
    other key of the record has one of these names. *)
Record ActorFields := mkActorFields {
  sex : list jsstring;
  spouses : list jsstring;
  birthday : list jsstring;
  death : list jsstring;
  growth : list jsstring;
  kinopoiskUrl : list jsstring;
  birthPlace : list jsstring;
  deathPlace : list jsstring;
  alsoKnownAs : list jsstring;
  biography : list jsstring;
  hometown : list jsstring;
  placeOfBirth : list jsstring;
  placeOfDeath : list jsstring;
  homepage : list jsstring;
  knownForDepartment : list jsstring;
  popularity : Q;
  externalIds : list jsstring;
  allNames : list jsstring
}.

(** [MovieShow], restricted to the fields that are modelled. *)
Record MovieShow := mkMovieShow {
  ms_id : Z;
  ms_name : list jsstring;
  ms_isSeries : bool;
  ms_seasonsCount : Z;
  ms_seriesInSeasonCount : Z;
  ms_actorFields : ActorFields;
  ms_userRating : option Q
}.

Definition short (items : list jsstring) : list jsstring :=
  formatArray (ItemString <$> items) SHORT_VALUE None MAX_ARRAY_ITEMS.
Definition long (items : list jsstring) : list jsstring :=
  formatArray (ItemString <$> items) LONG_TEXT None MAX_ARRAY_ITEMS.
Definition urls (items : list jsstring) : list jsstring :=
  formatArray (ItemString <$> items) URL None MAX_ARRAY_ITEMS.

(** The conditional object of [createMovieShowFrom]. *)
Definition actorFieldsOf (fullInfo : TMDBFullInfo) : ActorFields :=
  if bool_decide (fi_type fullInfo = str "person") then
    {| sex :=
         short [ if bool_decide (fi_gender fullInfo = Some 1%Z) then ru_female
                 else if bool_decide (fi_gender fullInfo = Some 2%Z)
                      then ru_male else ru_unspecified ];
       spouses := short [];
       birthday := short [strOr (fi_premiere_world fullInfo) []];
       death := short [strOr (fi_deathday fullInfo) []];
       growth := short [strOr (fi_knownForDepartment fullInfo) []];
       kinopoiskUrl := urls [strOr (fi_TMDBLink fullInfo) []];
       birthPlace := short [strOr (fi_birthPlace fullInfo) []];
       deathPlace := short [strOr (fi_deathPlace fullInfo) []];
       alsoKnownAs :=
         short (extractEnglishNamesOnly
                  (default [] (fi_alsoKnownAs fullInfo)));
       biography := long [strOr (fi_description fullInfo) []];
       hometown :=
         short [strOr (fi_hometown fullInfo)
                  (strOr (fi_birthPlace fullInfo) [])];
       placeOfBirth := short [strOr (fi_birthPlace fullInfo) []];
       placeOfDeath := short [strOr (fi_deathPlace fullInfo) []];
       homepage := urls [strOr (fi_homepage fullInfo) []];
       knownForDepartment :=
         short [strOr (fi_slogan fullInfo)
                  (strOr (fi_knownForDepartment fullInfo) [])];
       popularity := numOr0 (fi_rating_tmdb fullInfo);
       externalIds := short [strOr (fi_externalId_imdb fullInfo) []];
       allNames :=
         combineNamesForAliases [fi_name fullInfo]
           (extractEnglishNamesOnly (default [] (fi_alsoKnownAs fullInfo))) |}
  else
    {| sex := short [[]];
       spouses := short [[]];
       birthday := short [[]];
       death := short [[]];
       growth := short [[]];
       kinopoiskUrl := urls [[]];
       birthPlace := short [[]];
       deathPlace := short [[]];
       alsoKnownAs := short [];
       biography := long [[]];
       hometown := short [[]];
       placeOfBirth := short [[]];
       placeOfDeath := short [[]];
       homepage := urls [[]];
       knownForDepartment := short [[]];
       popularity := 0;
       externalIds := short [[]];
       allNames := short [fi_name fullInfo] |}.

(** [createMovieShowFrom] *)
Definition createMovieShowFrom (fullInfo : TMDBFullInfo)
    (userRating : option Q) : MovieShow :=
  let seasonsData := calculateSeasonsData (fi_seasonsInfo fullInfo) in
  {| ms_id := fi_id fullInfo;
     ms_name := short [fi_name fullInfo];
     ms_isSeries := fi_isSeries fullInfo;
     ms_seasonsCount := count seasonsData;
     ms_seriesInSeasonCount := averageEpisodesPerSeason seasonsData;
     ms_actorFields := actorFieldsOf fullInfo;
     ms_userRating := userRating |}.

End Names.

End Formatter.

(** ** The catalog client ([provider.ts]) *)

Module Provider.

Import Formatter.

Definition API_BASE_URL : jsstring := str "https://api.themoviedb.org/3".
Definition MAX_SEARCH_RESULTS : nat := 20.
Definition LANGUAGE : jsstring := str "ru-RU".
Definition IMAGE_BASE_URL : jsstring := str "https://image.tmdb.org/t/p/".

(** *** Requests, bodies and errors *)

(** What [buildUrl] returns: the address and the query parameters that
    were set, in order. Percent-encoding is left to the transport. *)
Record Url := mkUrl {
  href_path : jsstring;
  searchParams : list (jsstring * jsstring)
}.

(** The argument of [requestUrl]; the method and the accept header are
    constant. *)
Record Request := mkRequest {
  req_url : Url;
  req_authorization : jsstring
}.

(** An entry of the [results] of a person search. *)
Record SearchItem := mkSearchItem {
  item_id : Z;
  item_name : option jsstring;
  item_known_for_department : option jsstring;
  item_profile_path : option jsstring;
  item_popularity : option Q
}.

(** [res.json]: the bodies whose fields the client reads, and any other
    body, which the client hands on unread. *)
Inductive Json :=
| JNull
| JSearch (results : option (list SearchItem))
| JImages (profiles tagged_images : option (list RawImage))
| JOther (text : jsstring).

(** What [requestUrl] throws. *)
Inductive TransportFailure :=
| NetworkFailure
| HttpStatus (status : Z).

(** The errors of the client, named after their message keys. [ApiError]
    is what [errorHandler.handleApiError] makes of a transport failure;
    [TypeError] is the runtime's error for a property read on [null]. *)
Inductive Error :=
| TokenRequired
| EnterMovieTitle
| NothingFound (query : jsstring)
| InvalidMovieId
| TokenRequiredForMovie
| ApiError (cause : TransportFailure)
| TypeError.

(** *** Promises and [async] methods *)

(** A settled promise: when it settled and how. *)
Record Promise (A : Type) := mkPromise {
  settledAt : nat;
  outcome : Error + A
}.
Arguments mkPromise {A} _ _.
Arguments settledAt {A} _.
Arguments outcome {A} _.

(** An [async] method: given the requests issued so far, the promise it
    returns and the requests issued when it is done. *)
Definition Async (A : Type) : Type :=
  list Request -> Promise A * list Request.

Definition ret {A} (a : A) : Async A :=
  fun log => (mkPromise 0 (inr a), log).

Definition throw {A} (e : Error) : Async A :=
  fun log => (mkPromise 0 (inl e), log).

(** [const a = await m; k a] *)
Definition await {A B} (m : Async A) (k : A -> Async B) : Async B :=
  fun log =>
    let '(p, log1) := m log in
    match outcome p with
    | inl e => (mkPromise (settledAt p) (inl e), log1)
    | inr a =>
        let '(q, log2) := k a log1 in
        (mkPromise (Nat.max (settledAt p) (settledAt q)) (outcome q), log2)
    end.

(** [try { m } catch (e) { h e }] *)
Definition tryCatch {A} (m : Async A) (h : Error -> Async A) : Async A :=
  fun log =>
    let '(p, log1) := m log in
    match outcome p with
    | inl e =>
        let '(q, log2) := h e log1 in
        (mkPromise (Nat.max (settledAt p) (settledAt q)) (outcome q), log2)
    | inr _ => (p, log1)
    end.

Notation "x <- m ;; k" := (await m (fun x => k))
  (at level 100, m at next level, right associativity).

(** The rejection that [Promise.all] reports: of the rejected promises the
    one that settled first, the earlier in the array on a tie. *)
Fixpoint firstRejection (rejections : list (nat * Error))
    : option (nat * Error) :=
  match rejections with
  | [] => None
  | (t, e) :: rest =>
      match firstRejection rest with
      | Some (t', e') => if (t' <? t)%nat then Some (t', e') else Some (t, e)
      | None => Some (t, e)
      end
  end.

Definition rejectionOf {A} (p : Promise A) : option (nat * Error) :=
  match outcome p with
  | inl e => Some (settledAt p, e)
  | inr _ => None
  end.

(** [Promise.all([a, b, c])]: the three methods are called in turn, so
    each issues its request before any promise is awaited; the result is
    fulfilled when all three are, and rejected with the first rejection.
    (When one of the three is rejected the list of rejections is not
    empty, so the last arm is never taken.) *)
Definition Promise_all3 {A B C} (a : Async A) (b : Async B) (c : Async C)
    : Async (A * B * C) :=
  fun log =>
    let '(pa, log1) := a log in
    let '(pb, log2) := b log1 in
    let '(pc, log3) := c log2 in
    match outcome pa, outcome pb, outcome pc with
    | inr x, inr y, inr z =>
        (mkPromise (Nat.max (Nat.max (settledAt pa) (settledAt pb)) (settledAt pc))
           (inr (x, y, z)), log3)
    | _, _, _ =>
        match firstRejection
                (omap id [rejectionOf pa; rejectionOf pb; rejectionOf pc]) with
        | Some (t, e) => (mkPromise t (inl e), log3)
        | None => (mkPromise 0 (inl TypeError), log3)
        end
    end.

(** [Array.prototype.sort(cmp)]: the language promises a stable sort for a
    consistent comparator; it is modelled by the stable insertion sort.
    An element goes before the first element it does not come after. *)
Fixpoint sortInsert {A} (cmp : A -> A -> Q) (x : A) (l : list A) : list A :=
  match l with
  | [] => [x]
  | y :: l' =>
      if Qle_bool (cmp x y) 0 then x :: y :: l' else y :: sortInsert cmp x l'
  end.

Definition Array_sort {A} (cmp : A -> A -> Q) (l : list A) : list A :=
  foldr (sortInsert cmp) [] l.

(** What the promise of [apiGet] holds for an answer of the transport. *)
Definition answerOf (res : TransportFailure + Json) : Error + Json :=
  match res with
  | inl failure => inl (ApiError failure)
  | inr json => inr json
  end.

(** *** The provider class *)

Record TMDBSuggestItem := mkSuggestItem {
  sug_id : Z;
  sug_name : jsstring;
  sug_alternativeName : jsstring;
  sug_type : jsstring;
  sug_year : Z;
  sug_poster : option ImageUrls;
  sug_rating_tmdb : Q;
  sug_rating_imdb : Q
}.

(** An element of the array that [searchByQuery] sorts. *)
Record Entry := mkEntry {
  item : TMDBSuggestItem;
  score : Q
}.

Record ImageInfo := mkImageInfo {
  img_url : jsstring;
  img_language : option jsstring
}.

(** The result of [getAllImages]; its fields are named as in the source
    record, with a prefix that keeps them apart from the raw payload. *)
Record ImageBuckets := mkImageBuckets {
  bucket_posters : list ImageInfo;
  bucket_backdrops : list ImageInfo;
  bucket_logos : list ImageInfo
}.

Section TMDBProvider.

(** The collaborators of the class. The validator and the error handler
    are not part of the formatter or of the client; the transport is the
    host's [requestUrl], which tells for each request when it settles and
    with what; [toLowerCase] is the runtime's. The person conversion is
    handed the three bodies unread, so the client is generic in it. *)
Variable isValidToken : jsstring -> bool.
Variable isValidSearchQuery : jsstring -> bool.
Variable isValidMovieId : Z -> bool.
Variable requestUrl : Request -> nat * (TransportFailure + Json).
Variable toLowerCase : jsstring -> jsstring.
Variable convertPersonToTMDBFormat : Json -> Json -> Json -> TMDBFullInfo.

(** [params.language = LANGUAGE] on an object whose keys keep their
    insertion order. *)
Fixpoint setParam (key value : jsstring) (params : list (jsstring * jsstring))
    : list (jsstring * jsstring) :=
  match params with
  | [] => [(key, value)]
  | (k, v) :: rest =>
      if bool_decide (k = key) then (k, value) :: rest
      else (k, v) :: setParam key value rest
  end.

(** [buildUrl]: the parameters with an empty value are not set. *)
Definition buildUrl (endpoint : jsstring) (params : list (jsstring * jsstring))
    : Url :=
  {| href_path := API_BASE_URL ++ endpoint;
     searchParams := filter (fun kv => kv.2 <> []) params |}.

(** The [try] block of [apiGet]: one request; a failure of the transport
    is rethrown through the error handler. *)
Definition send (request : Request) : Async Json :=
  fun log =>
    let '(t, res) := requestUrl request in
    match res with
    | inl failure => (mkPromise t (inl (ApiError failure)), log ++ [request])
    | inr json => (mkPromise t (inr json), log ++ [request])
    end.

(** [apiGet] *)
Definition apiGet (endpoint token : jsstring)
    (params : list (jsstring * jsstring)) : Async Json :=
  if negb (isValidToken token) then throw TokenRequired
  else
    let params := setParam (str "language") LANGUAGE params in
    let url := buildUrl endpoint params in
    send {| req_url := url; req_authorization := str "Bearer " ++ token |}.

(** The request that [apiGet] issues for a valid token. *)
Definition requestFor (endpoint token : jsstring)
    (params : list (jsstring * jsstring)) : Request :=
  {| req_url := buildUrl endpoint (setParam (str "language") LANGUAGE params);
     req_authorization := str "Bearer " ++ token |}.

(** The requests of a record fetch, of the image listing and of the
    token probe. *)
Definition detailsRequest (id : Z) (token : jsstring) : Request :=
  requestFor (str "/person/" ++ Number_toString id) token
    [(str "append_to_response", str "external_ids,translations")].

Definition creditsRequest (id : Z) (token : jsstring) : Request :=
  requestFor (str "/person/" ++ Number_toString id ++ str "/combined_credits")
    token [].

Definition imagesRequest (id : Z) (token : jsstring) : Request :=
  requestFor (str "/person/" ++ Number_toString id ++ str "/images") token [].

Definition configurationRequest (token : jsstring) : Request :=
  requestFor (str "/configuration") token [].

(** [calculateRelevanceScore]: the sum as the source writes it, in exact
    arithmetic. *)
Definition calculateRelevanceScore (item : SearchItem) (query : jsstring) : Q :=
  let normalizedQuery := trim (toLowerCase query) in
  let name := toLowerCase (strOr (item_name item) []) in
  let score : Q := 0%Q in
  let score : Q := if bool_decide (name = normalizedQuery)
                   then (score + 1000)%Q else score in
  let score : Q := if startsWith name normalizedQuery
                   then (score + 500)%Q else score in
  let score : Q := if includes name normalizedQuery
                   then (score + 250)%Q else score in
  let score : Q := (score + numOr0 (item_popularity item) * 2)%Q in
  score.

(** [convertToSuggestItem] *)
Definition convertToSuggestItem (item : SearchItem) : TMDBSuggestItem :=
  let name := strOr (item_name item) [] in
  let knownFor := strOr (item_known_for_department item) (str "Acting") in
  {| sug_id := item_id item;
     sug_name := name;
     sug_alternativeName := knownFor;
     sug_type := str "person";
     sug_year := 0;
     sug_poster :=
       (fun path =>
          {| url := IMAGE_BASE_URL ++ str "w500" ++ path;
             previewUrl := IMAGE_BASE_URL ++ str "w185" ++ path |})
       <$> truthy (item_profile_path item);
     sug_rating_tmdb := numOr0 (item_popularity item);
     sug_rating_imdb := 0 |}.

(** The number that a call of [calculateRelevanceScore] leaves in an
    entry is a double: the sum above, after the rounding of its last
    addition. [scoreOf item query] is that number, read as the rational it
    is. The ranking is generic in it, so what is proved of the ranking
    holds of the scores as the runtime computes them; in exact arithmetic
    [scoreOf] is [calculateRelevanceScore]. *)
Variable scoreOf : SearchItem -> jsstring -> Q.

(** The first [map] of [searchByQuery]: a result with its score. *)
Definition entryOf (query : jsstring) (result : SearchItem) : Entry :=
  {| item := convertToSuggestItem result;
     score := scoreOf result query |}.

(** The scored entries, in the order of the response. *)
Definition scoredEntries (query : jsstring) (results : list SearchItem)
    : list Entry :=
  entryOf query <$> results.

(** The comparator of the sort: [(a, b) => b.score - a.score]. The sort
    reads its sign only, and the difference of two doubles has the sign of
    their exact difference. *)
Definition byScoreDescending (a b : Entry) : Q := (score b - score a)%Q.

(** The entries after the sort. *)
Definition rankedEntries (query : jsstring) (results : list SearchItem)
    : list Entry :=
  Array_sort byScoreDescending (scoredEntries query results).

(** [searchByQuery] *)
Definition searchByQuery (query token : jsstring)
    : Async (list TMDBSuggestItem) :=
  if negb (isValidSearchQuery query) then throw EnterMovieTitle
  else
    response <-
      apiGet (str "/search/person") token
        [(str "query", trim query); (str "page", Number_toString 1)] ;;
    match response with
    | JNull => throw TypeError
    | _ =>
        let raw :=
          match response with
          | JSearch (Some results) => results
          | _ => []
          end in
        let results :=
          take MAX_SEARCH_RESULTS (item <$> rankedEntries query raw) in
        match results with
        | [] => throw (NothingFound query)
        | _ => ret results
        end
    end.

(** The local function of [getAllImages]. *)
Definition extractImageData (imageArray : list RawImage) : list ImageInfo :=
  filter (fun img => img_url img <> [] /\ nonBlank (img_url img))
    ((fun img =>
        {| img_url := IMAGE_BASE_URL ++ str "original" ++ file_path img;
           img_language := truthy (iso_639_1 img) |})
     <$> imageArray).

Definition emptyBuckets : ImageBuckets :=
  {| bucket_posters := []; bucket_backdrops := []; bucket_logos := [] |}.

(** [getAllImages]; its optional [type] argument is not read. *)
Definition getAllImages (id : Z) (token : jsstring) : Async ImageBuckets :=
  tryCatch
    (let endpoint := str "/person/" ++ Number_toString id ++ str "/images" in
     images <- apiGet endpoint token [] ;;
     match images with
     | JNull => throw TypeError
     | _ =>
         let '(profiles, tagged) :=
           match images with
           | JImages profiles tagged => (profiles, tagged)
           | _ => (None, None)
           end in
         ret {| bucket_posters := extractImageData (default [] profiles);
                bucket_backdrops := extractImageData (default [] tagged);
                bucket_logos := [] |}
     end)
    (fun error => ret emptyBuckets).

(** [getPersonDetails] *)
Definition getPersonDetails (id : Z) (token : jsstring) : Async TMDBFullInfo :=
  await
    (Promise_all3
       (apiGet (str "/person/" ++ Number_toString id) token
          [(str "append_to_response", str "external_ids,translations")])
       (apiGet (str "/person/" ++ Number_toString id ++ str "/combined_credits")
          token [])
       (apiGet (str "/person/" ++ Number_toString id ++ str "/images")
          token []))
    (fun '(details, credits, images) =>
       ret (convertPersonToTMDBFormat details credits images)).

(** [getMovieById]; its optional [type] argument is not read. *)
Definition getMovieById (id : Z) (token : jsstring) (userRating : option Q)
    : Async MovieShow :=
  if negb (isValidMovieId id) then throw InvalidMovieId
  else if negb (isValidToken token) then throw TokenRequiredForMovie
  else
    personData <- getPersonDetails id token ;;
    ret (createMovieShowFrom toLowerCase personData userRating).

(** [validateToken] *)
Definition validateToken (token : jsstring) : Async bool :=
  if negb (isValidToken token) then ret false
  else
    tryCatch
      (_ <- apiGet (str "/configuration") token [] ;; ret true)
      (fun _ => ret false).

End TMDBProvider.

End Provider.

(** ** The specification's wording, as definitions *)

Module Spec.

Import Formatter.

(** The job table of the specification: job title, profession code. *)
Definition jobTable : list (jsstring * jsstring) :=
  [ (str "Director", str "director");
    (str "Writer", str "writer");
    (str "Screenplay", str "writer");
    (str "Producer", str "producer");
    (str "Executive Producer", str "producer") ].

(** Exact match of a job title in the table. *)
Fixpoint lookupJob (table : list (jsstring * jsstring)) (title : jsstring)
    : option jsstring :=
  match table with
  | [] => None
  | (k, v) :: rest => if bool_decide (k = title) then Some v else lookupJob rest title
  end.

(** Exact job match, else the department fallback, else dropped. *)
Definition classifyCrew (person : RawCredit) : option jsstring :=
  match job person ≫= lookupJob jobTable with
  | Some code => Some code
  | None =>
      if bool_decide (department person = Some (str "Writing"))
      then Some (str "writer") else None
  end.

(** The localized label that goes with a profession code. *)
Definition localizedProfession (code : jsstring) : jsstring :=
  if bool_decide (code = str "director") then ru_director
  else if bool_decide (code = str "writer") then ru_writer
  else if bool_decide (code = str "producer") then ru_producer
  else ru_actor.

(** The person that the conversion makes of a credit, field by field,
    given its two professions: the English name falls back to the name,
    and the photo is the w185 address of the profile path. *)
Definition personEntry (person : RawCredit)
    (enProfession profession : option jsstring) : TMDBPerson :=
  {| person_id := credit_id person;
     person_name := credit_name person;
     person_enName :=
       match original_name person with
       | Some (c :: r) => c :: r
       | _ => credit_name person
       end;
     person_enProfession := enProfession;
     person_profession := profession;
     person_photo :=
       match profile_path person with
       | Some (c :: r) => Some (str "https://image.tmdb.org/t/p/w185" ++ c :: r)
       | _ => None
       end |}.

(** The person of a credit classified with a profession code. *)
Definition classified (person : RawCredit) (code : jsstring) : TMDBPerson :=
  personEntry person (Some code) (Some (localizedProfession code)).

(** The job title of a credit is a name that every object inherits. *)
Definition hasInheritedJob (person : RawCredit) : bool :=
  match job person with
  | Some title => bool_decide (title ∈ Object_prototype_names)
  | None => false
  end.

(** What the conversion makes of a crew entry: under an inherited job
    title a person without a profession, whatever the department;
    otherwise the person of the classification, if it gives one. *)
Definition crewEntry (person : RawCredit) : option TMDBPerson :=
  if hasInheritedJob person then Some (personEntry person None None)
  else classified person <$> classifyCrew person.

(** An image carries the language tag [lang]. *)
Definition tagged (lang : jsstring) (img : RawImage) : Prop :=
  iso_639_1 img = Some lang.

(** [img] is the first entry of [l] with the tag [lang]. *)
Definition firstTagged (lang : jsstring) (l : list RawImage) (img : RawImage)
    : Prop :=
  exists i : nat,
    l !! i = Some img /\ tagged lang img /\
    forall (j : nat) (y : RawImage), l !! j = Some y -> (j < i)%nat -> ~ tagged lang y.

(** The choice of the specification: the target locale, else English, else
    the first entry. *)
Definition preferred (l : list RawImage) (img : RawImage) : Prop :=
  firstTagged (str "ru") l img
  \/ (Forall (fun y => ~ tagged (str "ru") y) l /\ firstTagged (str "en") l img)
  \/ (Forall (fun y => ~ tagged (str "ru") y) l
      /\ Forall (fun y => ~ tagged (str "en") y) l
      /\ head l = Some img).

(** The short mode in the order the specification gives: clean, drop the
    empty strings, cap. *)
Definition shortAsSpecified (items : list jsstring) (maxItems : nat)
    : list jsstring :=
  take maxItems (filter (fun s => s <> []) (cleanTextForMetadata <$> items)).

(** A string is clean: no colon, no white space at either end. *)
Definition isClean (s : jsstring) : Prop :=
  (58 ∉ s) /\ (trim s = s).

(** A string does not start with white space. *)
Definition startTrimmed (s : jsstring) : Prop :=
  match s with
  | [] => True
  | c :: _ => isWhiteSpace c = false
  end.

(** The total of the episode counts. *)
Definition totalEpisodes (seasons : list RawSeason) : Z :=
  foldr Z.add 0%Z (episode_count <$> seasons).

Definition summaryOf (s : RawSeason) : SeasonInfo :=
  {| number := season_number s; episodesCount := episode_count s |}.

(** The names of the deduplication example; the third is Cyrillic. *)
Definition lynn_a_freedman : jsstring := str "Lynn A. Freedman".
Definition lynn_freedman : jsstring := str "Lynn Freedman".
Definition lynn_freedman_ru : jsstring :=
  [1051; 1080; 1085; 1085; 32; 1060; 1088; 1080; 1076; 1084; 1072; 1085].

(** A canonical record of the movie kind, with a name and nothing else. *)
Definition alien : TMDBFullInfo :=
  {| fi_id := 348;
     fi_name := str "Alien";
     fi_type := str "movie";
     fi_description := None;
     fi_poster := None;
     fi_backdrop := None;
     fi_logo := None;
     fi_persons := [];
     fi_isSeries := false;
     fi_TMDBLink := None;
     fi_status := None;
     fi_seasonsInfo := None;
     fi_rating_tmdb := None;
     fi_externalId_imdb := None;
     fi_slogan := None;
     fi_premiere_world := None;
     fi_deathday := None;
     fi_gender := None;
     fi_birthPlace := None;
     fi_deathPlace := None;
     fi_alsoKnownAs := None;
     fi_hometown := None;
     fi_homepage := None;
     fi_knownForDepartment := None |}.

(** The comparator [(a, b) => key(b) - key(a)] of a descending sort, and
    the order that such a sort establishes between neighbours. *)
Definition descending {A} (key : A -> Q) (a b : A) : Q := (key b - key a)%Q.
Definition notBelow {A} (key : A -> Q) (a b : A) : Prop := (key b <= key a)%Q.


End Spec.

(** ** Sample inputs *)

Module Samples.

Import Formatter Provider.

(** A validator that accepts what is not blank, and one that accepts the
    positive ids. *)
Definition notBlank (s : jsstring) : bool := negb (bool_decide (trim s = [])).
Definition positiveId (id : Z) : bool := bool_decide (0 < id)%Z.

Definition tom_hanks : SearchItem :=
  {| item_id := 31;
     item_name := Some (str "Tom Hanks");
     item_known_for_department := Some (str "Acting");
     item_profile_path := None;
     item_popularity := Some 80%Q |}.

Definition tom : SearchItem :=
  {| item_id := 7;
     item_name := Some (str "Tom");
     item_known_for_department := None;
     item_profile_path := None;
     item_popularity := Some 10%Q |}.

(** Two results of one exact sum, 1750.32: an exact match of popularity
    0.16 and a longer name of popularity 500.16. *)
Definition tom_016 : SearchItem :=
  {| item_id := 1;
     item_name := Some (str "Tom");
     item_known_for_department := None;
     item_profile_path := None;
     item_popularity := Some (16 # 100)%Q |}.

Definition tom_hanks_50016 : SearchItem :=
  {| item_id := 2;
     item_name := Some (str "Tom Hanks");
     item_known_for_department := None;
     item_profile_path := None;
     item_popularity := Some (50016 # 100)%Q |}.

(** The doubles that the runtime computes for the two: 1750.32 and
    1750.3200000000002, as the rationals they are. *)
Definition doubleScores (result : SearchItem) (query : jsstring) : Q :=
  if bool_decide (item_id result = 1%Z)
  then (7697988769315553 # 4398046511104)%Q
  else (3848994384657777 # 2199023255552)%Q.

Definition twoTies (request : Request) : nat * (TransportFailure + Json) :=
  (1%nat, inr (JSearch (Some [tom_016; tom_hanks_50016]))).



(** A transport that answers every request with the two results. *)
Definition searchAnswers (request : Request)
    : nat * (TransportFailure + Json) :=
  (1%nat, inr (JSearch (Some [tom_hanks; tom]))).

(** A transport whose credits endpoint answers 500 and whose other
    endpoints answer later with some body. *)
Definition creditsDown (request : Request)
    : nat * (TransportFailure + Json) :=
  if bool_decide (href_path (req_url request)
                  = API_BASE_URL ++ str "/person/31/combined_credits")
  then (2%nat, inl (HttpStatus 500))
  else (3%nat, inr (JOther (str "{}"))).

(** A transport that is down. *)
Definition offline (request : Request) : nat * (TransportFailure + Json) :=
  (1%nat, inl NetworkFailure).

(** A person conversion that keeps the id of nothing: any record will do
    where the conversion is not reached. *)
Definition anyRecord (details credits images : Json) : TMDBFullInfo :=
  {| fi_id := 31;
     fi_name := str "Tom Hanks";
     fi_type := str "person";
     fi_description := None;
     fi_poster := None;
     fi_backdrop := None;
     fi_logo := None;
     fi_persons := [];
     fi_isSeries := false;
     fi_TMDBLink := None;
     fi_status := None;
     fi_seasonsInfo := None;
     fi_rating_tmdb := None;
     fi_externalId_imdb := None;
     fi_slogan := None;
     fi_premiere_world := None;
     fi_deathday := None;
     fi_gender := Some 2%Z;
     fi_birthPlace := None;
     fi_deathPlace := None;
     fi_alsoKnownAs := None;
     fi_hometown := None;
     fi_homepage := None;
     fi_knownForDepartment := None |}.

(** Candidate images tagged fr, en, ru, in this order. *)
Definition image_fr : RawImage :=
  {| iso_639_1 := Some (str "fr"); file_path := str "/fr.jpg" |}.
Definition image_en : RawImage :=
  {| iso_639_1 := Some (str "en"); file_path := str "/en.jpg" |}.
Definition image_ru : RawImage :=
  {| iso_639_1 := Some (str "ru"); file_path := str "/ru.jpg" |}.

End Samples.

(** Equality of rationals is decidable, so a list can be filtered by score. *)
#[global] Instance Qeq_decision (x y : Q) : Decision (x == y)%Q := Qeq_dec x y.

(** ** More of the data formatter *)

Module FormatterMore.

Import Formatter.

(** *** Age ratings *)

(** The own entries of [AGE_RATING_MAP.MOVIE] and [AGE_RATING_MAP.TV]. *)
Definition AGE_RATING_MAP_MOVIE : gmap jsstring Z :=
  list_to_map
    [ (str "G", 0%Z); (str "PG", 6%Z); (str "PG-13", 13%Z);
      (str "R", 17%Z); (str "NC-17", 18%Z) ].

Definition AGE_RATING_MAP_TV : gmap jsstring Z :=
  list_to_map
    [ (str "TV-Y", 0%Z); (str "TV-Y7", 7%Z); (str "TV-G", 0%Z);
      (str "TV-PG", 10%Z); (str "TV-14", 14%Z); (str "TV-MA", 17%Z) ].

(** [details.release_dates] of a movie. *)
Record RawReleaseDate := mkRawReleaseDate {
  certification : option jsstring
}.

Record RawCountryRelease := mkRawCountryRelease {
  release_iso_3166_1 : option jsstring;
  release_dates : option (list RawReleaseDate)
}.

Record RawReleaseDates := mkRawReleaseDates {
  release_results : option (list RawCountryRelease)
}.

(** [details.content_ratings] of a TV show. *)
Record RawContentRating := mkRawContentRating {
  rating_iso_3166_1 : option jsstring;
  rating : option jsstring
}.

Record RawContentRatings := mkRawContentRatings {
  rating_results : option (list RawContentRating)
}.

(** [table[key] || 0] for a table of numbers: the own value of the key
    (an own 0 stays 0); for an inherited name the inherited member, [None]
    here, a value that is not a number; 0 for every other key. *)
Definition valueOr0 (table : gmap jsstring Z) (key : jsstring) : option Z :=
  match table !! key with
  | Some v => if bool_decide (v = 0%Z) then Some 0%Z else Some v
  | None =>
      if bool_decide (key ∈ Object_prototype_names) then None else Some 0%Z
  end.

(** [usRelease?.release_dates?.[0]?.certification], when truthy. *)
Definition firstCertification (usRelease : option RawCountryRelease)
    : option jsstring :=
  truthy (((usRelease ≫= release_dates) ≫= head) ≫= certification).

(** [extractAgeRating]; [None] is a result that is not a number. *)
Definition extractAgeRating (releaseDates : option RawReleaseDates)
    : option Z :=
  match releaseDates ≫= release_results with
  | None => Some 0%Z
  | Some results =>
      let usRelease :=
        Array_find (fun r => release_iso_3166_1 r = Some (str "US")) results in
      match firstCertification usRelease with
      | Some cert => valueOr0 AGE_RATING_MAP_MOVIE cert
      | None => Some 0%Z
      end
  end.

(** [extractMpaaRating] *)
Definition extractMpaaRating (releaseDates : option RawReleaseDates)
    : jsstring :=
  match releaseDates ≫= release_results with
  | None => []
  | Some results =>
      let usRelease :=
        Array_find (fun r => release_iso_3166_1 r = Some (str "US")) results in
      default [] (firstCertification usRelease)
  end.

(** [extractTVAgeRating]; [None] is a result that is not a number. *)
Definition extractTVAgeRating (contentRatings : option RawContentRatings)
    : option Z :=
  match contentRatings ≫= rating_results with
  | None => Some 0%Z
  | Some results =>
      let usRating :=
        Array_find (fun r => rating_iso_3166_1 r = Some (str "US")) results in
      match truthy (usRating ≫= rating) with
      | Some r => valueOr0 AGE_RATING_MAP_TV r
      | None => Some 0%Z
      end
  end.

(** *** People by role *)

(** The result of [extractPeople]: four arrays of [{name, id}]. *)
Record PeopleByRole := mkPeopleByRole {
  directors : list Item;
  actors : list Item;
  writers : list Item;
  producers : list Item
}.

(** One turn of the loop of [extractPeople]. *)
Definition extractPeopleStep (result : PeopleByRole) (person : TMDBPerson)
    : PeopleByRole :=
  match person_name person, person_enProfession person with
  | [], _ | _, None | _, Some [] => result
  | _, Some enProfession =>
      let personData :=
        ItemObject (person_name person) (Some (person_id person)) in
      if bool_decide (enProfession = str "director") then
        {| directors := directors result ++ [personData];
           actors := actors result;
           writers := writers result;
           producers := producers result |}
      else if bool_decide (enProfession = str "actor") then
        {| directors := directors result;
           actors := actors result ++ [personData];
           writers := writers result;
           producers := producers result |}
      else if bool_decide (enProfession = str "writer") then
        {| directors := directors result;
           actors := actors result;
           writers := writers result ++ [personData];
           producers := producers result |}
      else if bool_decide (enProfession = str "producer") then
        {| directors := directors result;
           actors := actors result;
           writers := writers result;
           producers := producers result ++ [personData] |}
      else result
  end.

(** [extractPeople] *)
Definition extractPeople (persons : list TMDBPerson) : PeopleByRole :=
  foldl extractPeopleStep
    {| directors := []; actors := []; writers := []; producers := [] |}
    persons.

(** *** Image links *)

(** [createImageLink] *)
Definition createImageLink (imagePath : jsstring) : list jsstring :=
  if bool_decide (imagePath = []) || bool_decide (trim imagePath = [])
  then []
  else if negb (startsWith imagePath (str "http"))
  then [str "![[" ++ imagePath ++ str "]]"]
  else [str "![](" ++ imagePath ++ str ")"].

(** *** Person conversion *)

(** The fields of a person details payload that the modelled part of the
    conversion reads. *)
Record RawPersonDetails := mkRawPersonDetails {
  pd_id : Z;
  pd_name : option jsstring;
  pd_biography : option jsstring;
  pd_birthday : option jsstring;
  pd_deathday : option jsstring;
  pd_gender : option Z;
  pd_place_of_birth : option jsstring;
  pd_death_place : option jsstring;
  pd_hometown : option jsstring;
  pd_homepage : option jsstring;
  pd_known_for_department : option jsstring;
  pd_knownForDepartment : option jsstring;
  pd_popularity : option Q;
  pd_profile_path : option jsstring;
  pd_imdb_id : option jsstring;
  pd_external_imdb_id : option jsstring;
  pd_also_known_as : option (list jsstring)
}.

Record RawPersonImages := mkRawPersonImages {
  profiles : option (list RawImage);
  tagged_images : option (list RawImage)
}.

(** [a || b] where [b] is handed on as it is. *)
Definition orElse (a b : option jsstring) : option jsstring :=
  match truthy a with
  | Some x => Some x
  | None => b
  end.

Section PersonConversion.

Variable toLowerCase : jsstring -> jsstring.

(** The part of [convertPersonToTMDBFormat] that fills the modelled fields
    of the canonical record. The credits feed only the list of related
    titles, which is not among them. *)
Definition convertPersonToTMDBFormat (details : RawPersonDetails)
    (images : option RawPersonImages) : TMDBFullInfo :=
  let poster :=
    match images ≫= profiles with
    | Some ((_ :: _) as l) => extractBestImage (Some l) role_poster
    | _ =>
        (fun path =>
           {| url := buildImageUrl path POSTER_ORIGINAL;
              previewUrl := buildImageUrl path POSTER_W500 |})
        <$> truthy (pd_profile_path details)
    end in
  let backdrop :=
    match images ≫= tagged_images with
    | Some ((_ :: _) as l) => extractBestImage (Some l) role_backdrop
    | _ => None
    end in
  let biography := strOr (pd_biography details) [] in
  let department :=
    strOr (pd_known_for_department details)
      (strOr (pd_knownForDepartment details) (str "Acting")) in
  {| fi_id := pd_id details;
     fi_name := strOr (pd_name details) [];
     fi_type := str "person";
     fi_description := Some biography;
     fi_poster := poster;
     fi_backdrop := backdrop;
     fi_logo := None;
     fi_persons := [];
     fi_isSeries := false;
     fi_TMDBLink :=
       Some (str "https://www.themoviedb.org/person/"
             ++ Number_toString (pd_id details));
     fi_status := None;
     fi_seasonsInfo := None;
     fi_rating_tmdb := Some (numOr0 (pd_popularity details));
     fi_externalId_imdb :=
       orElse (pd_imdb_id details) (pd_external_imdb_id details);
     fi_slogan := Some department;
     fi_premiere_world := pd_birthday details;
     fi_deathday := Some (strOr (pd_deathday details) []);
     fi_gender := pd_gender details;
     fi_birthPlace := Some (strOr (pd_place_of_birth details) []);
     fi_deathPlace := Some (strOr (pd_death_place details) []);
     fi_alsoKnownAs :=
       Some (extractEnglishNamesOnly toLowerCase
               (default [] (pd_also_known_as details)));
     fi_hometown :=
       Some (strOr (pd_hometown details)
               (strOr (pd_place_of_birth details) []));
     fi_homepage :=
       Some (strOr (pd_homepage details) (strOr (pd_homepage details) []));
     fi_knownForDepartment :=
       Some (strOr (pd_known_for_department details)
               (strOr (pd_knownForDepartment details) [])) |}.

End PersonConversion.

(** *** Birth place *)

(** [s.split(sep)] for a separator of one unit. *)
Fixpoint split (sep : N) (s : jsstring) : list jsstring :=
  match s with
  | [] => [[]]
  | c :: r =>
      if c =? sep then [] :: split sep r
      else
        match split sep r with
        | part :: parts => (c :: part) :: parts
        | [] => [[c]]
        end
  end.

(** [extractCountryFromBirthPlace] *)
Definition extractCountryFromBirthPlace (birthPlace : jsstring) : jsstring :=
  let parts := trim <$> split 44 birthPlace in
  match last parts with
  | Some (c :: r) => c :: r
  | _ => birthPlace
  end.

(** *** Known-for titles *)

(** [parseInt(s)] without a radix; [None] stands for [NaN]. *)
Definition digitValue (radix : N) (c : N) : option N :=
  let v :=
    if isDigit c then Some (c - 48)
    else if isLowerAZ c then Some (c - 97 + 10)
    else if isUpperAZ c then Some (c - 65 + 10)
    else None in
  match v with
  | Some d => if d <? radix then Some d else None
  | None => None
  end.

(** The value of the longest prefix of digits, given the value and the
    number of the digits read so far. *)
Fixpoint parseDigits (radix : N) (seen : bool) (acc : N) (s : jsstring)
    : option N :=
  match s with
  | [] => if seen then Some acc else None
  | c :: r =>
      match digitValue radix c with
      | Some d => parseDigits radix true (acc * radix + d) r
      | None => if seen then Some acc else None
      end
  end.

Definition parseInt (s : jsstring) : option Z :=
  let s := trimStart s in
  let '(negative, s) :=
    match s with
    | 45 :: r => (true, r)
    | 43 :: r => (false, r)
    | _ => (false, s)
    end in
  let '(radix, s) :=
    match s with
    | 48 :: 120 :: r => (16, r)
    | 48 :: 88 :: r => (16, r)
    | _ => (10, s)
    end in
  (fun n => if negative then (- Z.of_N n)%Z else Z.of_N n)
  <$> parseDigits radix false 0 s.

(** An entry of the [cast] or [crew] of a person's combined credits. *)
Record RawTitleCredit := mkRawTitleCredit {
  tc_id : Z;
  tc_title : option jsstring;
  tc_name : option jsstring;
  tc_original_title : option jsstring;
  tc_original_name : option jsstring;
  tc_media_type : option jsstring;
  tc_poster_path : option jsstring;
  tc_vote_average : option Q;
  tc_popularity : option Q;
  tc_vote_count : option Q;
  tc_release_date : option jsstring;
  tc_first_air_date : option jsstring
}.

Record RawCombinedCredits := mkRawCombinedCredits {
  cc_cast : option (list RawTitleCredit);
  cc_crew : option (list RawTitleCredit)
}.

(** [TMDBRelatedMovie]; a year of [None] is [NaN]. *)
Record TMDBRelatedMovie := mkRelatedMovie {
  rel_id : Z;
  rel_name : jsstring;
  rel_alternativeName : jsstring;
  rel_enName : jsstring;
  rel_type : jsstring;
  rel_poster : option ImageUrls;
  rel_rating_tmdb : Q;
  rel_rating_imdb : Q;
  rel_year : option Z
}.

(** The score of the comparator of [extractKnownForTitles], in exact
    arithmetic: the runtime rounds the product by 0.1 and the sum, so its
    number can differ from this one where a credit has votes; without
    votes it is the popularity, here and there. *)
Definition knownForScore (a : RawTitleCredit) : Q :=
  (numOr0 (tc_popularity a) + numOr0 (tc_vote_count a) * (1 # 10))%Q.

(** The last [map] of [extractKnownForTitles]. *)
Definition relatedOf (item : RawTitleCredit) : TMDBRelatedMovie :=
  {| rel_id := tc_id item;
     rel_name := strOr (tc_title item) (strOr (tc_name item) []);
     rel_alternativeName :=
       strOr (tc_original_title item) (strOr (tc_original_name item) []);
     rel_enName :=
       strOr (tc_original_title item) (strOr (tc_original_name item) []);
     rel_type := strOr (tc_media_type item) (str "movie");
     rel_poster :=
       (fun path =>
          {| url := buildImageUrl path POSTER_ORIGINAL;
             previewUrl := buildImageUrl path POSTER_W500 |})
       <$> truthy (tc_poster_path item);
     rel_rating_tmdb := numOr0 (tc_vote_average item);
     rel_rating_imdb := 0;
     rel_year :=
       match orElse (tc_release_date item) (tc_first_air_date item) with
       | Some (c :: r) => parseInt (take 4 (c :: r))
       | _ => Some 0%Z
       end |}.

(** The credits that [extractKnownForTitles] keeps: cast and crew
    together, sorted by score, the first ten. *)
Definition sortedCredits (credits : RawCombinedCredits) : list RawTitleCredit :=
  let allCredits :=
    default [] (cc_cast credits) ++ default [] (cc_crew credits) in
  take 10
    (Provider.Array_sort
       (fun a b => (knownForScore b - knownForScore a)%Q) allCredits).

(** *** Facts *)

(** [HTML_ENTITIES], in the order of the object literal. *)
Definition HTML_ENTITIES : list (jsstring * jsstring) :=
  [ (str "&laquo;", [171]); (str "&raquo;", [187]);
    (str "&ldquo;", [34]); (str "&rdquo;", [34]);
    (str "&lsquo;", [39]); (str "&rsquo;", [39]);
    (str "&quot;", [34]); (str "&amp;", [38]);
    (str "&lt;", [60]); (str "&gt;", [62]);
    (str "&nbsp;", [32]); (str "&ndash;", [8211]);
    (str "&mdash;", [8212]); (str "&hellip;", [8230]) ].

(** [text.replace(/<[^>]*>/g, '')]: a tag runs from a [<] to the first
    [>] after it; a [<] with no [>] after it stays. [inTag] tells that
    the units read are inside a tag. *)
Fixpoint removeTags (inTag : bool) (s : jsstring) : jsstring :=
  match s with
  | [] => []
  | c :: r =>
      if inTag
      then (if c =? 62 then removeTags false r else removeTags true r)
      else if (c =? 60) && existsb (N.eqb 62) r then removeTags true r
      else c :: removeTags false r
  end.

(** [text.replace(new RegExp(pattern, 'g'), replacement)] for a pattern
    without special characters. [skip] counts the units of a match that
    are still to be passed over. *)
Fixpoint replaceAll (pattern replacement : jsstring) (skip : nat)
    (s : jsstring) : jsstring :=
  match s with
  | [] => []
  | c :: r =>
      match skip with
      | S n => replaceAll pattern replacement n r
      | O =>
          if startsWith (c :: r) pattern
          then replacement
               ++ replaceAll pattern replacement (length pattern - 1) r
          else c :: replaceAll pattern replacement 0 r
      end
  end.

(** The number of word characters at the start of [s]. *)
Fixpoint wordRun (s : jsstring) : nat :=
  match s with
  | c :: r => if isWordChar c then S (wordRun r) else O
  | [] => O
  end.

(** The length of a match of [#?\w+;] at the start of [s], if any. *)
Definition entityTail (s : jsstring) : option nat :=
  let '(hash, s) :=
    match s with
    | 35 :: r => (1%nat, r)
    | _ => (0%nat, s)
    end in
  let n := wordRun s in
  match n, s !! n with
  | S _, Some 59 => Some (hash + n + 1)%nat
  | _, _ => None
  end.

(** [text.replace(/&#?\w+;/g, '')] *)
Fixpoint removeEntities (skip : nat) (s : jsstring) : jsstring :=
  match s with
  | [] => []
  | c :: r =>
      match skip with
      | S n => removeEntities n r
      | O =>
          if c =? 38
          then match entityTail r with
               | Some k => removeEntities k r
               | None => c :: removeEntities 0 r
               end
          else c :: removeEntities 0 r
      end
  end.

(** [stripHtmlTags] *)
Definition stripHtmlTags (text : jsstring) : jsstring :=
  let cleanText := removeTags false text in
  let cleanText :=
    foldl (fun cleanText entity => replaceAll entity.1 entity.2 0 cleanText)
          cleanText HTML_ENTITIES in
  let cleanText := removeEntities 0 cleanText in
  trim cleanText.

Record Fact := mkFact {
  fact_spoiler : option bool;
  fact_value : jsstring
}.

(** The filter of [processFacts]: not a spoiler, and a text that is not
    blank. *)
Definition keptFact (fact : Fact) : Prop :=
  fact_spoiler fact <> Some true
  /\ fact_value fact <> [] /\ nonBlank (fact_value fact).

(** [processFacts] *)
Definition processFacts (facts : list Fact) : list jsstring :=
  (fun fact => stripHtmlTags (fact_value fact))
  <$> take MAX_FACTS_COUNT (filter keptFact facts).

(** [extractKnownForTitles] *)
Definition extractKnownForTitles (credits : option RawCombinedCredits)
    : list TMDBRelatedMovie :=
  match credits with
  | None => []
  | Some credits => relatedOf <$> sortedCredits credits
  end.

End FormatterMore.

(** ** More of the wording of the properties *)

Module MoreSpec.

Import Formatter FormatterMore Spec.

(** The [{name, id}] entries of the credits that have a name. *)
Definition namedCredits (l : list RawCredit) : list Item :=
  omap (fun p =>
          match credit_name p with
          | [] => None
          | _ => Some (ItemObject (credit_name p) (Some (credit_id p)))
          end) l.

(** The crew entries that the classification gives the profession [code]. *)
Definition crewOf (code : jsstring) (l : list RawCredit) : list RawCredit :=
  filter (fun p => classifyCrew p = Some code) l.

(** The [{name, id}] entries of the persons that have a name and the
    profession [code]. *)
Definition withRole (code : jsstring) (persons : list TMDBPerson) : list Item :=
  omap (fun person =>
          match person_name person with
          | [] => None
          | _ =>
              if bool_decide (person_enProfession person = Some code)
              then Some (ItemObject (person_name person)
                           (Some (person_id person)))
              else None
          end) persons.

(** A list of names built by adding, one at a time, a name whose base
    name is similar to the base name of none of the names before it. *)
Inductive Deduplicated (toLowerCase : jsstring -> jsstring)
    : list jsstring -> Prop :=
| Deduplicated_nil : Deduplicated toLowerCase []
| Deduplicated_snoc (U : list jsstring) (u : jsstring) :
    Deduplicated toLowerCase U ->
    existsb (fun b => areSimilarNames toLowerCase (baseNameOf u) b)
            (baseNameOf <$> U) = false ->
    Deduplicated toLowerCase (U ++ [u]).

(** What the loop of [extractEnglishNamesOnly] keeps true of its state
    [(U, P)], for names taken from [names]. *)
Definition keptNames (toLowerCase : jsstring -> jsstring)
    (names U P : list jsstring) : Prop :=
  P = baseNameOf <$> U
  /\ Deduplicated toLowerCase U
  /\ Forall (fun u => trim u = u /\ englishOnlyRegex_test u = true
                      /\ exists n, n ∈ names /\ u = trim n) U.

(** An array element whose text is blank. *)
Definition blankItem (item : Item) : Prop :=
  match item with
  | ItemString s => trim s = []
  | ItemObject name _ => trim name = []
  end.

(** A folder path that is absent, empty or blank. *)
Definition noFolder (folderPath : option jsstring) : Prop :=
  match folderPath with
  | None => True
  | Some path => trim path = []
  end.

End MoreSpec.

(** ** More sample inputs *)

Module MoreSamples.

Import Formatter Provider FormatterMore Samples MoreSpec.

(** A credits payload: one actor, a director, a writer known by the
    department only. *)
Definition sampleCredits : RawCredits :=
  {| cast :=
       Some [ {| credit_id := 31; credit_name := str "Tom Hanks";
                 original_name := None; profile_path := None;
                 job := None; department := Some (str "Acting") |} ];
     crew :=
       Some [ {| credit_id := 24; credit_name := str "Robert Zemeckis";
                 original_name := None; profile_path := None;
                 job := Some (str "Director");
                 department := Some (str "Directing") |};
              {| credit_id := 27; credit_name := str "Eric Roth";
                 original_name := None; profile_path := None;
                 job := None; department := Some (str "Writing") |} ] |}.

(** Two titles without votes, the less popular first. *)
Definition sampleTitles : RawCombinedCredits :=
  {| cc_cast :=
       Some [ {| tc_id := 2280; tc_title := Some (str "Big");
                 tc_name := None; tc_original_title := None;
                 tc_original_name := None; tc_media_type := Some (str "movie");
                 tc_poster_path := None; tc_vote_average := None;
                 tc_popularity := Some (3 # 1)%Q; tc_vote_count := None;
                 tc_release_date := Some (str "1988-06-03");
                 tc_first_air_date := None |};
              {| tc_id := 13; tc_title := Some (str "Forrest Gump");
                 tc_name := None; tc_original_title := None;
                 tc_original_name := None; tc_media_type := Some (str "movie");
                 tc_poster_path := None; tc_vote_average := None;
                 tc_popularity := Some (9 # 1)%Q; tc_vote_count := None;
                 tc_release_date := Some (str "1994-07-06");
                 tc_first_air_date := None |} ];
     cc_crew := None |}.

(** A transport whose image listing holds one profile. *)
Definition imagesAnswer (request : Request)
    : nat * (TransportFailure + Json) :=
  (1%nat, inr (JImages (Some [image_fr]) None)).

End MoreSamples.

(** ** Properties of the string primitives *)

Module JSProps.

Lemma startsWith_refl (s : jsstring) : startsWith s s = true.
Proof.
  induction s as [|c s IH]; [reflexivity|].
  cbn. by rewrite N.eqb_refl, IH.
Qed.

Lemma includes_refl (s : jsstring) : includes s s = true.
Proof. destruct s; cbn; [reflexivity|]. by rewrite N.eqb_refl, startsWith_refl. Qed.


End JSProps.

(** ** Properties of the formatter *)

Module FormatterProps.

Import Formatter Spec Samples JSProps.

(** *** Role classification *)

Lemma PROFESSION_MAP_lookup (title : jsstring) :
  PROFESSION_MAP !! title =
  (fun code => mkMapping code (localizedProfession code)) <$> lookupJob jobTable title.
Proof.
  unfold PROFESSION_MAP, jobTable. cbn [list_to_map foldr uncurry lookupJob fst snd].
  repeat (rewrite lookup_insert; case_bool_decide;
          [ rewrite decide_True by assumption; reflexivity
          | rewrite decide_False by assumption ]).
  rewrite lookup_empty. reflexivity.
Qed.

Lemma jobTable_own (title code : jsstring) :
  lookupJob jobTable title = Some code -> title ∉ Object_prototype_names.
Proof.
  unfold jobTable. cbn [lookupJob].
  repeat (case_bool_decide;
          [ subst title; intros _; apply (bool_decide_eq_false_1 _);
            vm_compute; reflexivity | ]).
  discriminate.
Qed.

Lemma member_PROFESSION_MAP (title : jsstring) :
  member PROFESSION_MAP title =
  match lookupJob jobTable title with
  | Some code => Some (OwnMember (mkMapping code (localizedProfession code)))
  | None =>
      if bool_decide (title ∈ Object_prototype_names)
      then Some InheritedMember else None
  end.
Proof.
  unfold member. rewrite PROFESSION_MAP_lookup.
  by destruct (lookupJob jobTable title).
Qed.

Lemma personOf_personEntry (p : RawCredit)
    (enProfession profession : option jsstring) :
  personOf p enProfession profession = personEntry p enProfession profession.
Proof.
  unfold personOf, personEntry, photoOf.
  by destruct (original_name p) as [[|c r]|],
              (profile_path p) as [[|c' r']|].
Qed.

Lemma foldl_pushCast (acc : list TMDBPerson) (l : list RawCredit) :
  foldl pushCast acc l =
  acc ++ ((fun p => classified p (str "actor")) <$> l).
Proof.
  revert acc. induction l as [|p l IH]; intros acc;
    cbn [foldl fmap list_fmap].
  - by rewrite app_nil_r.
  - rewrite IH. unfold pushCast. rewrite personOf_personEntry.
    by rewrite <- app_assoc.
Qed.

Lemma pushCrew_classify (acc : list TMDBPerson) (p : RawCredit) :
  pushCrew acc p = acc ++ option_list (crewEntry p).
Proof.
  unfold pushCrew, crewEntry, hasInheritedJob, classifyCrew, classified.
  rewrite !personOf_personEntry.
  destruct (job p) as [title|]; cbn [mbind option_bind].
  - rewrite member_PROFESSION_MAP.
    destruct (lookupJob jobTable title) as [code|] eqn:Hcode.
    + rewrite (bool_decide_eq_false_2 _ (jobTable_own _ _ Hcode)).
      cbn. rewrite ?personOf_personEntry. reflexivity.
    + destruct (bool_decide (title ∈ Object_prototype_names)).
      * cbn. rewrite ?personOf_personEntry. reflexivity.
      * destruct (bool_decide (department p = Some (str "Writing")));
          cbn; rewrite ?app_nil_r; reflexivity.
  - destruct (bool_decide (department p = Some (str "Writing")));
      cbn; rewrite ?app_nil_r; reflexivity.
Qed.

Lemma foldl_pushCrew (acc : list TMDBPerson) (l : list RawCredit) :
  foldl pushCrew acc l = acc ++ omap crewEntry l.
Proof.
  revert acc. induction l as [|p l IH]; intros acc; cbn.
  - by rewrite app_nil_r.
  - rewrite IH, pushCrew_classify, <- app_assoc. f_equal.
    destruct (crewEntry p); reflexivity.
Qed.

(** Where no job title is an inherited name the crew entries are those
    of the classification. *)
Lemma omap_crewEntry_classified (l : list RawCredit) :
  Forall (fun person =>
            forall title, job person = Some title ->
                          title ∉ Object_prototype_names) l ->
  omap crewEntry l = omap (fun p => classified p <$> classifyCrew p) l.
Proof.
  induction 1 as [|p l Hp _ IH]; [reflexivity|].
  cbn [omap list_omap]. rewrite IH. unfold crewEntry, hasInheritedJob.
  destruct (job p) as [title|]; [|reflexivity].
  by rewrite (bool_decide_eq_false_2 _ (Hp title eq_refl)).
Qed.



(** *** Image selection *)

Lemma Array_find_Some (lang : jsstring) (l : list RawImage) (img : RawImage) :
  Array_find (fun y => iso_639_1 y = Some lang) l = Some img ->
  firstTagged lang l img.
Proof.
  unfold Array_find, firstTagged, tagged. intros Hfind.
  destruct (list_find _ l) as [[i x]|] eqn:Hlf; simplify_eq/=.
  apply list_find_Some in Hlf as (Hi & Hx & Hfirst).
  exists i. eauto.
Qed.

Lemma Array_find_None (lang : jsstring) (l : list RawImage) :
  Array_find (fun y => iso_639_1 y = Some lang) l = None ->
  Forall (fun y => ~ tagged lang y) l.
Proof.
  unfold Array_find, tagged. intros Hfind.
  destruct (list_find _ l) as [[i x]|] eqn:Hlf; simplify_eq/=.
  by apply list_find_None in Hlf.
Qed.

Lemma firstTagged_unique (lang : jsstring) (l : list RawImage) (x y : RawImage) :
  firstTagged lang l x -> firstTagged lang l y -> x = y.
Proof.
  intros (i & Hi & Hx & Hfi) (j & Hj & Hy & Hfj).
  destruct (Nat.lt_trichotomy i j) as [Hlt | [-> | Hlt]].
  - destruct (Hfj i x Hi Hlt Hx).
  - congruence.
  - destruct (Hfi j y Hj Hlt Hy).
Qed.

Lemma firstTagged_not_all (lang : jsstring) (l : list RawImage) (x : RawImage) :
  firstTagged lang l x -> Forall (fun y => ~ tagged lang y) l -> False.
Proof.
  intros (i & Hi & Hx & _) Hall.
  rewrite Forall_forall in Hall. apply (Hall x); [|exact Hx].
  eapply list_elem_of_lookup_2; eauto.
Qed.

(** The choice of the specification names one image. *)
Lemma preferred_unique (l : list RawImage) (x y : RawImage) :
  preferred l x -> preferred l y -> x = y.
Proof.
  intros [Hx | [[Hnx Hx] | (Hnx & Hex & Hx)]] [Hy | [[Hny Hy] | (Hny & Hey & Hy)]].
  - exact (firstTagged_unique _ _ _ _ Hx Hy).
  - destruct (firstTagged_not_all _ _ _ Hx Hny).
  - destruct (firstTagged_not_all _ _ _ Hx Hny).
  - destruct (firstTagged_not_all _ _ _ Hy Hnx).
  - exact (firstTagged_unique _ _ _ _ Hx Hy).
  - destruct (firstTagged_not_all _ _ _ Hx Hey).
  - destruct (firstTagged_not_all _ _ _ Hy Hnx).
  - destruct (firstTagged_not_all _ _ _ Hy Hex).
  - congruence.
Qed.

(** C4. For a list with at least one image [extractBestImage] returns the
    two addresses (original size and w500) of the image that the language
    priority names: the first one tagged ru, else the first one tagged
    en, else the first of the list. For an empty or absent list it
    returns nothing. *)
Theorem extractBestImage_priority (images : option (list RawImage))
    (type : ImageRole) :
  match images with
  | None | Some [] => extractBestImage images type = None
  | Some ((_ :: _) as l) =>
      exists img,
        preferred l img /\
        extractBestImage images type =
        Some {| url := Formatter.IMAGE_BASE_URL ++ str "original" ++ file_path img;
                previewUrl :=
                  Formatter.IMAGE_BASE_URL ++ str "w500" ++ file_path img |}
  end.
Proof.
  destruct images as [[|first rest]|]; [reflexivity| |reflexivity].
  unfold extractBestImage.
  destruct (Array_find (fun img => iso_639_1 img = Some (str "ru"))
              (first :: rest)) as [ruImage|] eqn:Hru.
  - exists ruImage. split; [|reflexivity].
    left. by apply Array_find_Some.
  - apply Array_find_None in Hru.
    destruct (Array_find (fun img => iso_639_1 img = Some (str "en"))
                (first :: rest)) as [enImage|] eqn:Hen.
    + exists enImage. split; [|reflexivity].
      right; left. split; [exact Hru|]. by apply Array_find_Some.
    + apply Array_find_None in Hen.
      exists first. split; [|reflexivity].
      right; right. done.
Qed.

(** The selection on the tags of the specification's example. *)
Example extractBestImage_ru_en_fr :
  extractBestImage (Some [image_fr; image_en; image_ru]) role_poster
  = Some {| url := str "https://image.tmdb.org/t/p/original/ru.jpg";
            previewUrl := str "https://image.tmdb.org/t/p/w500/ru.jpg" |}
  /\ extractBestImage (Some [image_fr; image_en]) role_poster
     = Some {| url := str "https://image.tmdb.org/t/p/original/en.jpg";
               previewUrl := str "https://image.tmdb.org/t/p/w500/en.jpg" |}
  /\ extractBestImage (Some [image_fr]) role_logo
     = Some {| url := str "https://image.tmdb.org/t/p/original/fr.jpg";
               previewUrl := str "https://image.tmdb.org/t/p/w500/fr.jpg" |}.
Proof. repeat split; vm_compute; reflexivity. Qed.

(** The caller's fallback: without poster candidates the TV conversion
    takes the direct path of the details payload, or leaves the field out. *)
Lemma convertTVShow_poster_fallback (details : RawTVDetails)
    (credits : RawCredits) (images : option RawImages) :
  (images ≫= posters = None \/ images ≫= posters = Some []) ->
  fi_poster (convertTVShowToTMDBFormat details credits images)
  = match truthy (tv_poster_path details) with
    | Some path =>
        Some {| url := buildImageUrl path POSTER_ORIGINAL;
                previewUrl := buildImageUrl path POSTER_W500 |}
    | None => None
    end.
Proof.
  intros Hnone. unfold convertTVShowToTMDBFormat. cbn [fi_poster].
  destruct Hnone as [-> | ->]; by destruct (truthy (tv_poster_path details)).
Qed.

(** *** Name deduplication *)

Lemma areSimilarNames_refl (toLowerCase : jsstring -> jsstring) (s : jsstring) :
  areSimilarNames toLowerCase s s = true.
Proof. unfold areSimilarNames. by rewrite includes_refl. Qed.

(** C5. On the three names of the example [extractEnglishNamesOnly] keeps
    the first one only: the Cyrillic name fails the Latin-only test, and
    the name without the middle initial has the base name of the first,
    whose original form is the one kept. This holds whatever the
    runtime's case folding does. *)
Theorem extractEnglishNamesOnly_example (toLowerCase : jsstring -> jsstring) :
  extractEnglishNamesOnly toLowerCase
    [lynn_a_freedman; lynn_freedman; lynn_freedman_ru]
  = [lynn_a_freedman].
Proof.
  unfold extractEnglishNamesOnly.
  assert (Hfilter :
    filter (fun name => englishOnlyRegex_test (trim name) = true)
      [lynn_a_freedman; lynn_freedman; lynn_freedman_ru]
    = [lynn_a_freedman; lynn_freedman]) by (vm_compute; reflexivity).
  rewrite Hfilter. clear Hfilter.
  assert (Ht1 : trim lynn_a_freedman = lynn_a_freedman)
    by (vm_compute; reflexivity).
  assert (Ht2 : trim lynn_freedman = lynn_freedman)
    by (vm_compute; reflexivity).
  assert (Hb1 : baseNameOf lynn_a_freedman = lynn_freedman)
    by (vm_compute; reflexivity).
  assert (Hb2 : baseNameOf lynn_freedman = lynn_freedman)
    by (vm_compute; reflexivity).
  cbn [foldl]. unfold englishNamesStep at 2.
  rewrite Ht1, Hb1. cbn [existsb app].
  unfold englishNamesStep. rewrite Ht2, Hb2. cbn [existsb].
  rewrite areSimilarNames_refl. reflexivity.
Qed.

(** *** Text cleaning and the short mode *)

Lemma trimStart_split (s : jsstring) :
  exists k, s = k ++ trimStart s.
Proof.
  induction s as [|c s [k IH]]; [by exists []|].
  cbn. destruct (isWhiteSpace c).
  - exists (c :: k). cbn. by rewrite <- IH.
  - by exists [].
Qed.

Lemma trimStart_startTrimmed (s : jsstring) : startTrimmed (trimStart s).
Proof.
  induction s as [|c s IH]; [exact I|].
  cbn. destruct (isWhiteSpace c) eqn:Hc; [exact IH | exact Hc].
Qed.

Lemma trimStart_fixed (s : jsstring) : startTrimmed s -> trimStart s = s.
Proof. destruct s as [|c s]; [reflexivity|]. cbn. by intros ->. Qed.

Lemma trimEnd_split (s : jsstring) : exists k, s = trimEnd s ++ k.
Proof.
  unfold trimEnd. destruct (trimStart_split (reverse s)) as [k Hk].
  exists (reverse k).
  rewrite <- reverse_app, <- Hk. by rewrite reverse_involutive.
Qed.

Lemma trimEnd_startTrimmed (s : jsstring) :
  startTrimmed s -> startTrimmed (trimEnd s).
Proof.
  intros Hs. destruct (trimEnd_split s) as [k Hk].
  destruct (trimEnd s) as [|c r]; [exact I|].
  rewrite Hk in Hs. exact Hs.
Qed.

Lemma trimEnd_idem (s : jsstring) : trimEnd (trimEnd s) = trimEnd s.
Proof.
  unfold trimEnd. rewrite reverse_involutive.
  by rewrite (trimStart_fixed _ (trimStart_startTrimmed _)).
Qed.

Lemma trim_idem (s : jsstring) : trim (trim s) = trim s.
Proof.
  unfold trim.
  rewrite (trimStart_fixed (trimEnd (trimStart s))).
  - apply trimEnd_idem.
  - apply trimEnd_startTrimmed, trimStart_startTrimmed.
Qed.

Lemma elem_of_trim (c : N) (s : jsstring) : c ∈ trim s -> c ∈ s.
Proof.
  unfold trim. intros Hc.
  destruct (trimStart_split s) as [k1 Hk1].
  destruct (trimEnd_split (trimStart s)) as [k2 Hk2].
  rewrite Hk1, Hk2. set_solver.
Qed.

Lemma cleanTextForMetadata_isClean (s : jsstring) :
  isClean (cleanTextForMetadata s).
Proof.
  unfold isClean, cleanTextForMetadata. destruct s as [|c s].
  - split; [apply not_elem_of_nil | reflexivity].
  - split; [|apply trim_idem].
    intros Hin%elem_of_trim. unfold removeColons in Hin.
    apply list_elem_of_filter in Hin as [Hne _]. by apply Hne.
Qed.

Lemma omap_keptString_strings (strs : list jsstring) :
  omap keptString (toStringItem <$> (ItemString <$> strs)) = filter nonBlank strs.
Proof.
  induction strs as [|s strs IH]; [reflexivity|].
  rewrite filter_cons, <- IH, !fmap_cons. cbn [toStringItem omap list_omap keptString].
  case_bool_decide; [by rewrite decide_True | by rewrite decide_False].
Qed.

Lemma formatArray_short_strings (strs : list jsstring)
    (folderPath : option jsstring) (maxItems : nat) :
  formatArray (ItemString <$> strs) SHORT_VALUE folderPath maxItems
  = cleanTextForMetadata <$> take maxItems (filter nonBlank strs).
Proof. unfold formatArray. by rewrite omap_keptString_strings. Qed.

(** C8, as the code has it. The short mode drops the strings that are
    blank, caps the list, and cleans what is left, in this order; every
    element of the output is a cleaned string (no colon, no white space at
    either end) and the output is no longer than the cap. *)
Theorem formatArray_short_order (strs : list jsstring)
    (folderPath : option jsstring) (maxItems : nat) :
  let out := formatArray (ItemString <$> strs) SHORT_VALUE folderPath maxItems in
  out = cleanTextForMetadata <$> take maxItems (filter nonBlank strs)
  /\ Forall isClean out
  /\ (length out <= maxItems)%nat.
Proof.
  cbn zeta. rewrite formatArray_short_strings.
  split; [reflexivity|]. split.
  - apply Forall_fmap, Forall_forall. intros s _.
    apply cleanTextForMetadata_isClean.
  - rewrite length_fmap, length_take. lia.
Qed.

(** C8, as the specification has it, fails on a lone colon: the entry is
    not blank, so it is kept, and cleaning then leaves the empty string. *)
Lemma formatArray_short_keeps_empty :
  formatArray [ItemString (str ":")] SHORT_VALUE None MAX_ARRAY_ITEMS = [[]]
  /\ shortAsSpecified [str ":"] MAX_ARRAY_ITEMS = []
  /\ ~ Forall (fun s => s <> [])
        (formatArray [ItemString (str ":")] SHORT_VALUE None MAX_ARRAY_ITEMS).
Proof.
  assert (Hout :
    formatArray [ItemString (str ":")] SHORT_VALUE None MAX_ARRAY_ITEMS = [[]])
    by (vm_compute; reflexivity).
  split; [exact Hout|]. split; [vm_compute; reflexivity|].
  rewrite Hout. intros Hall. by inversion_clear Hall.
Qed.

(** *** Kind gating *)

Lemma short_single (s : jsstring) :
  short [s] = if bool_decide (nonBlank s) then [cleanTextForMetadata s] else [].
Proof.
  unfold short. rewrite (formatArray_short_strings [s]).
  rewrite filter_cons, filter_nil. case_bool_decide.
  - by rewrite decide_True.
  - by rewrite decide_False.
Qed.

(** C9, as the code has it. For a record whose kind is not person every
    field of the actor block holds its empty value, except [allNames],
    which holds the cleaned primary name (nothing when the name is
    blank). The block has the same fields for every kind. *)
Theorem actorFields_of_nonperson (toLowerCase : jsstring -> jsstring)
    (fullInfo : TMDBFullInfo) (userRating : option Q) :
  fi_type fullInfo <> str "person" ->
  let f := ms_actorFields (createMovieShowFrom toLowerCase fullInfo userRating) in
  sex f = [] /\ spouses f = [] /\ birthday f = [] /\ death f = []
  /\ growth f = [] /\ kinopoiskUrl f = [] /\ birthPlace f = []
  /\ deathPlace f = [] /\ alsoKnownAs f = [] /\ biography f = []
  /\ hometown f = [] /\ placeOfBirth f = [] /\ placeOfDeath f = []
  /\ homepage f = [] /\ knownForDepartment f = []
  /\ popularity f = 0%Q /\ externalIds f = []
  /\ allNames f =
     (if bool_decide (nonBlank (fi_name fullInfo))
      then [cleanTextForMetadata (fi_name fullInfo)] else []).
Proof.
  intros Hkind. cbn zeta. unfold createMovieShowFrom, actorFieldsOf.
  rewrite bool_decide_eq_false_2 by exact Hkind.
  cbn [ms_actorFields sex spouses birthday death growth kinopoiskUrl
       birthPlace deathPlace alsoKnownAs biography hometown placeOfBirth
       placeOfDeath homepage knownForDepartment popularity externalIds allNames].
  rewrite (short_single (fi_name fullInfo)).
  repeat split; reflexivity.
Qed.

Lemma actorFields_of_nonperson_witness :
  fi_type alien <> str "person"
  /\ sex (ms_actorFields (createMovieShowFrom asciiToLowerCase alien None)) = []
  /\ allNames (ms_actorFields (createMovieShowFrom asciiToLowerCase alien None))
     = [cleanTextForMetadata (str "Alien")].
Proof.
  assert (Hkind : fi_type alien <> str "person") by (vm_compute; discriminate).
  split; [exact Hkind|].
  pose proof (actorFields_of_nonperson asciiToLowerCase alien None Hkind) as H.
  cbn zeta in H.
  destruct H as (Hsex & _ & _ & _ & _ & _ & _ & _ & _ & _ & _ & _ & _ & _ & _
                 & _ & _ & Hall).
  split; [exact Hsex|]. rewrite Hall.
  rewrite bool_decide_eq_true_2; [reflexivity|]. vm_compute. discriminate.
Defined.

(** C9, as the specification has it, fails on [allNames]: a movie named
    Alien gets the one-element list of its name there, not the empty
    list. *)
Lemma movie_allNames_not_empty :
  fi_type alien <> str "person"
  /\ allNames (ms_actorFields (createMovieShowFrom asciiToLowerCase alien None))
     = [str "Alien"]
  /\ allNames (ms_actorFields (createMovieShowFrom asciiToLowerCase alien None))
     <> [].
Proof.
  split; [vm_compute; discriminate|].
  assert (Hall :
    allNames (ms_actorFields (createMovieShowFrom asciiToLowerCase alien None))
    = [str "Alien"]) by (vm_compute; reflexivity).
  split; [exact Hall|]. rewrite Hall. discriminate.
Qed.

(** *** Seasons *)

Lemma foldl_episodes (acc : Z) (l : list RawSeason) :
  foldl (fun total season => (total + episodesCount season)%Z) acc
        (summaryOf <$> l)
  = (acc + totalEpisodes l)%Z.
Proof.
  revert acc. induction l as [|s l IH]; intros acc; cbn.
  - lia.
  - rewrite IH. unfold totalEpisodes. cbn. lia.
Qed.

Lemma Math_ceil_div_bounds (a n : Z) :
  (0 < n)%Z ->
  (n * (Math_ceil_div a n - 1) < a <= n * Math_ceil_div a n)%Z.
Proof.
  intros Hn. unfold Math_ceil_div.
  pose proof (Z.mul_div_le (- a) n Hn).
  pose proof (Z.mul_succ_div_gt (- a) n Hn).
  lia.
Qed.

Lemma calculateSeasonsData_regular (l : list RawSeason) :
  calculateSeasonsData (Some (summaryOf <$> l)) =
  match l with
  | [] => {| count := 0; averageEpisodesPerSeason := 0 |}
  | _ => {| count := Z.of_nat (length l);
            averageEpisodesPerSeason :=
              Math_ceil_div (totalEpisodes l) (Z.of_nat (length l)) |}
  end.
Proof.
  destruct l as [|s l]; [reflexivity|].
  unfold calculateSeasonsData. rewrite fmap_cons.
  rewrite <- (fmap_cons summaryOf), foldl_episodes, length_fmap.
  reflexivity.
Qed.

(** C10. The season summaries of a converted TV show are the seasons of
    the payload whose number is above zero, in the order of the payload;
    a season numbered zero is in neither the summaries, nor the season
    count, nor the average, which is the ceiling of the episodes of the
    counted seasons over their number. *)
Theorem seasonsInfo_regular_seasons (toLowerCase : jsstring -> jsstring)
    (details : RawTVDetails) (credits : RawCredits)
    (images : option RawImages) (userRating : option Q) :
  let seasons := default [] (tv_seasons details) in
  let regular := filter (fun s => (season_number s > 0)%Z) seasons in
  let info := convertTVShowToTMDBFormat details credits images in
  let show := createMovieShowFrom toLowerCase info userRating in
  fi_seasonsInfo info = Some (summaryOf <$> regular)
  /\ regular `sublist_of` seasons
  /\ (forall s, s ∈ regular <-> s ∈ seasons /\ (season_number s > 0)%Z)
  /\ Forall (fun i => (number i > 0)%Z) (default [] (fi_seasonsInfo info))
  /\ ms_seasonsCount show = Z.of_nat (length regular)
  /\ match regular with
     | [] => ms_seriesInSeasonCount show = 0%Z
     | _ =>
         (Z.of_nat (length regular) * (ms_seriesInSeasonCount show - 1)
          < totalEpisodes regular
          <= Z.of_nat (length regular) * ms_seriesInSeasonCount show)%Z
     end.
Proof.
  cbn zeta.
  set (regular := filter _ (default [] (tv_seasons details))).
  assert (Hinfo :
    fi_seasonsInfo (convertTVShowToTMDBFormat details credits images)
    = Some (summaryOf <$> regular)) by reflexivity.
  split; [exact Hinfo|].
  split; [apply sublist_filter|].
  split; [intros s; unfold regular; rewrite list_elem_of_filter; tauto|].
  split.
  { rewrite Hinfo. cbn [default]. apply Forall_fmap, Forall_forall.
    intros s Hs. unfold regular in Hs.
    apply list_elem_of_filter in Hs as [Hpos _]. exact Hpos. }
  unfold createMovieShowFrom. cbn [ms_seasonsCount ms_seriesInSeasonCount].
  rewrite Hinfo, calculateSeasonsData_regular.
  destruct regular as [|s l] eqn:Hreg; [done|].
  cbn [count averageEpisodesPerSeason]. split; [reflexivity|].
  apply Math_ceil_div_bounds. cbn [length]. lia.
Qed.

End FormatterProps.

(** ** Properties of the catalog client *)

Module ProviderProps.

Import Formatter Provider Spec Samples JSProps.

(** *** The sort *)

Section Sorting.

Context {A : Type}.
Variable key : A -> Q.

Lemma sortInsert_Permutation (x : A) (l : list A) :
  sortInsert (descending key) x l ≡ₚ x :: l.
Proof.
  induction l as [|y l IH]; cbn; [reflexivity|].
  destruct (Qle_bool (descending key x y) 0); [reflexivity|].
  rewrite IH. apply Permutation_swap.
Qed.

Lemma Array_sort_Permutation (l : list A) : Array_sort (descending key) l ≡ₚ l.
Proof.
  induction l as [|x l IH]; cbn; [reflexivity|].
  fold (Array_sort (descending key) l). by rewrite sortInsert_Permutation, IH.
Qed.

Lemma sortInsert_sorted (x : A) (l : list A) :
  StronglySorted (notBelow key) l ->
  StronglySorted (notBelow key) (sortInsert (descending key) x l).
Proof.
  induction 1 as [|y l Hl IH Hy]; cbn.
  - repeat constructor.
  - destruct (Qle_bool (descending key x y) 0) eqn:Hcmp.
    + apply Qle_bool_iff in Hcmp. unfold descending in Hcmp.
      constructor; [by constructor|].
      constructor; [unfold notBelow; lra|].
      eapply Forall_impl; [exact Hy|]. unfold notBelow. intros z Hz. lra.
    + assert (Hlt : (key x < key y)%Q).
      { apply Qnot_le_lt. intros Hle.
        assert (Qle_bool (descending key x y) 0 = true) as Ht
          by (apply Qle_bool_iff; unfold descending; lra).
        congruence. }
      constructor; [exact IH|].
      rewrite sortInsert_Permutation.
      constructor; [unfold notBelow; lra | exact Hy].
Qed.

Lemma Array_sort_sorted (l : list A) :
  StronglySorted (notBelow key) (Array_sort (descending key) l).
Proof.
  induction l as [|x l IH]; cbn; [constructor|].
  by apply sortInsert_sorted.
Qed.

(** Stability: the elements of one key keep their order. *)
Lemma sortInsert_stable (q : Q) (x : A) (l : list A) :
  filter (fun e => (key e == q)%Q) (sortInsert (descending key) x l)
  = filter (fun e => (key e == q)%Q) (x :: l).
Proof.
  induction l as [|y l IH]; cbn [sortInsert]; [reflexivity|].
  destruct (Qle_bool (descending key x y) 0) eqn:Hcmp; [reflexivity|].
  assert (Hlt : (key x < key y)%Q).
  { apply Qnot_le_lt. intros Hle.
    assert (Qle_bool (descending key x y) 0 = true) as Ht
      by (apply Qle_bool_iff; unfold descending; lra).
    congruence. }
  rewrite (filter_cons _ y), IH, !filter_cons.
  destruct (decide (key y == q)%Q) as [Hy|Hy];
    destruct (decide (key x == q)%Q) as [Hx|Hx]; try reflexivity.
  exfalso. rewrite Hx, Hy in Hlt. by apply Qlt_irrefl in Hlt.
Qed.

Lemma Array_sort_stable (q : Q) (l : list A) :
  filter (fun e => (key e == q)%Q) (Array_sort (descending key) l)
  = filter (fun e => (key e == q)%Q) l.
Proof.
  induction l as [|x l IH]; [reflexivity|].
  cbn [Array_sort foldr]. fold (Array_sort (descending key) l).
  rewrite sortInsert_stable, !filter_cons, IH. reflexivity.
Qed.


Lemma sorted_take (n : nat) (l : list A) :
  StronglySorted (notBelow key) l -> StronglySorted (notBelow key) (take n l).
Proof.
  intros Hl. rewrite <- (take_drop n l) in Hl.
  by apply StronglySorted_app_1_l in Hl.
Qed.


End Sorting.

(** *** Promises *)

Section AsyncProps.

Context {A B C D : Type}.

Lemma await_outcome (m : Async A) (k : A -> Async B) (log : list Request) :
  outcome (await m k log).1 =
  match outcome (m log).1 with
  | inl e => inl e
  | inr a => outcome (k a (m log).2).1
  end.
Proof.
  unfold await. destruct (m log) as [p log1]. cbn [fst snd].
  destruct (outcome p) as [e|a]; [reflexivity|].
  by destruct (k a log1).
Qed.

Lemma await_requests (m : Async A) (k : A -> Async B) (log : list Request) :
  (forall a l, (k a l).2 = l) ->
  (await m k log).2 = (m log).2.
Proof.
  intros Hk. unfold await. destruct (m log) as [p log1]. cbn [fst snd].
  destruct (outcome p) as [e|a]; [reflexivity|].
  specialize (Hk a log1). by destruct (k a log1).
Qed.

Lemma tryCatch_outcome (m : Async A) (h : Error -> Async A)
    (log : list Request) :
  outcome (tryCatch m h log).1 =
  match outcome (m log).1 with
  | inl e => outcome (h e (m log).2).1
  | inr a => inr a
  end.
Proof.
  unfold tryCatch. destruct (m log) as [p log1]. cbn [fst snd].
  destruct (outcome p) as [e|a] eqn:Hp; [|exact Hp].
  by destruct (h e log1).
Qed.

Lemma Promise_all3_requests (a : Async A) (b : Async B) (c : Async C)
    (log : list Request) :
  (Promise_all3 a b c log).2 = (c (b (a log).2).2).2.
Proof.
  unfold Promise_all3.
  destruct (a log) as [pa l1]; cbn [snd].
  destruct (b l1) as [pb l2]; cbn [snd].
  destruct (c l2) as [pc l3]; cbn [snd].
  destruct (outcome pa); destruct (outcome pb); destruct (outcome pc);
    try reflexivity;
    by destruct (firstRejection _) as [[? ?]|].
Qed.

Lemma Promise_all3_outcome (a : Async A) (b : Async B) (c : Async C)
    (log : list Request) :
  let pa := (a log).1 in
  let pb := (b (a log).2).1 in
  let pc := (c (b (a log).2).2).1 in
  outcome (Promise_all3 a b c log).1 =
  match outcome pa, outcome pb, outcome pc with
  | inr x, inr y, inr z => inr (x, y, z)
  | _, _, _ =>
      match firstRejection
              (omap id [rejectionOf pa; rejectionOf pb; rejectionOf pc]) with
      | Some (t, e) => inl e
      | None => inl TypeError
      end
  end.
Proof.
  cbn zeta. unfold Promise_all3.
  destruct (a log) as [pa l1]; cbn [fst snd].
  destruct (b l1) as [pb l2]; cbn [fst snd].
  destruct (c l2) as [pc l3]; cbn [fst snd].
  destruct (outcome pa); destruct (outcome pb); destruct (outcome pc);
    try reflexivity;
    by destruct (firstRejection _) as [[? ?]|].
Qed.

End AsyncProps.

(** *** The client *)

Section Client.

Variable isValidToken : jsstring -> bool.
Variable isValidSearchQuery : jsstring -> bool.
Variable isValidMovieId : Z -> bool.
Variable requestUrl : Request -> nat * (TransportFailure + Json).
Variable toLowerCase : jsstring -> jsstring.
Variable convertPersonToTMDBFormat : Json -> Json -> Json -> TMDBFullInfo.
Variable scoreOf : SearchItem -> jsstring -> Q.

Lemma apiGet_run (endpoint token : jsstring)
    (params : list (jsstring * jsstring)) (log : list Request) :
  isValidToken token = true ->
  apiGet isValidToken requestUrl endpoint token params log =
  (mkPromise (requestUrl (requestFor endpoint token params)).1
     (answerOf (requestUrl (requestFor endpoint token params)).2),
   log ++ [requestFor endpoint token params]).
Proof.
  intros Htoken. unfold apiGet, send. rewrite Htoken. cbn [negb].
  fold (requestFor endpoint token params).
  destruct (requestUrl (requestFor endpoint token params)) as [t [failure|json]];
    reflexivity.
Qed.

Lemma apiGet_invalid (endpoint token : jsstring)
    (params : list (jsstring * jsstring)) (log : list Request) :
  isValidToken token = false ->
  apiGet isValidToken requestUrl endpoint token params log =
  (mkPromise 0 (inl TokenRequired), log).
Proof. intros Htoken. unfold apiGet. by rewrite Htoken. Qed.

(** C1. For a valid token and a valid query, when the search endpoint
    answers with a list of results, the entries that [searchByQuery]
    keeps are entries of the response, in non-increasing order of score,
    the entries of one score in the order of the response and taken from
    its front, and at most twenty of them; the call returns their items,
    and raises the nothing-found error when there is none. The score of
    an entry is the number that the runtime computes for it, whatever
    the rounding of its arithmetic. *)
Theorem searchByQuery_ranked (query token : jsstring)
    (results : option (list SearchItem)) (t : nat) (log : list Request) :
  isValidSearchQuery query = true ->
  isValidToken token = true ->
  requestUrl
    (requestFor (str "/search/person") token
       [(str "query", trim query); (str "page", Number_toString 1)])
  = (t, inr (JSearch results)) ->
  let scored := scoredEntries scoreOf query (default [] results) in
  exists entries : list Entry,
    entries ⊆+ scored
    /\ StronglySorted (fun a b => (score b <= score a)%Q) entries
    /\ (forall q : Q,
          filter (fun e => (score e == q)%Q) entries
          `prefix_of` filter (fun e => (score e == q)%Q) scored)
    /\ (length entries <= 20)%nat
    /\ length entries = Nat.min 20 (length (default [] results))
    /\ outcome
         (searchByQuery isValidToken isValidSearchQuery requestUrl scoreOf
            query token log).1
       = match entries with
         | [] => inl (NothingFound query)
         | _ => inr (item <$> entries)
         end.
Proof.
  intros Hquery Htoken Hanswer. cbn zeta.
  set (raw := default [] results).
  set (ranked := rankedEntries scoreOf query raw).
  exists (take MAX_SEARCH_RESULTS ranked).
  assert (Hperm : ranked ≡ₚ scoredEntries scoreOf query raw)
    by apply (Array_sort_Permutation score).
  split.
  { rewrite <- Hperm. apply sublist_submseteq, sublist_take. }
  split.
  { apply (sorted_take score), (Array_sort_sorted score). }
  split.
  { intros q. rewrite <- (Array_sort_stable score q (scoredEntries _ _ raw)).
    fold (rankedEntries scoreOf query raw). fold ranked.
    exists (filter (fun e => (score e == q)%Q) (drop MAX_SEARCH_RESULTS ranked)).
    by rewrite <- filter_app, take_drop. }
  split.
  { rewrite length_take. unfold MAX_SEARCH_RESULTS. lia. }
  split.
  { rewrite length_take, Hperm. unfold scoredEntries.
    rewrite length_fmap. unfold MAX_SEARCH_RESULTS. lia. }
  unfold searchByQuery. rewrite Hquery. cbn [negb]. unfold await.
  rewrite apiGet_run by exact Htoken. rewrite Hanswer.
  cbn [fst snd answerOf outcome].
  replace (match results with Some results0 => results0 | None => [] end)
    with raw by (by destruct results).
  fold ranked. rewrite <- fmap_take.
  destruct (take MAX_SEARCH_RESULTS ranked) as [|e rest]; reflexivity.
Qed.

(** *** Scoring *)




(** *** The record fetch *)

Lemma firstRejection_earliest (rejections : list (nat * Error)) :
  rejections <> [] ->
  exists t e,
    firstRejection rejections = Some (t, e)
    /\ (t, e) ∈ rejections
    /\ forall t' e', (t', e') ∈ rejections -> (t <= t')%nat.
Proof.
  induction rejections as [|[t e] rest IH]; [done|]. intros _.
  cbn [firstRejection]. destruct rest as [|r rest'].
  - exists t, e. cbn. split; [reflexivity|]. split; [by left|].
    intros t' e' Hin. apply list_elem_of_singleton in Hin. by simplify_eq.
  - destruct IH as (t0 & e0 & Hfirst & Hin0 & Hmin0); [done|].
    rewrite Hfirst. destruct (Nat.ltb_spec t0 t) as [Hlt|Hge].
    + exists t0, e0. split; [reflexivity|]. split; [by right|].
      intros t' e' [Heq | Hin]%elem_of_cons.
      * simplify_eq. lia.
      * eauto.
    + exists t, e. split; [reflexivity|]. split; [by left|].
      intros t' e' [Heq | Hin]%elem_of_cons.
      * by simplify_eq.
      * specialize (Hmin0 _ _ Hin). lia.
Qed.

Lemma rejectionOf_answer (r : Request) (t : nat) (e : Error) :
  rejectionOf (mkPromise (requestUrl r).1 (answerOf (requestUrl r).2))
  = Some (t, e)
  <-> exists failure,
        (requestUrl r).2 = inl failure
        /\ t = (requestUrl r).1 /\ e = ApiError failure.
Proof.
  unfold rejectionOf. cbn [outcome settledAt].
  destruct (requestUrl r) as [t0 [failure|json]]; cbn [fst snd answerOf].
  - split.
    + intros [= <- <-]. eauto.
    + intros (failure' & [= <-] & -> & ->). reflexivity.
  - split; [discriminate|]. by intros (failure' & Hfail & _).
Qed.

(** The requests of the three fetches are issued whatever the answers. *)
Lemma getPersonDetails_requests (pid : Z) (token : jsstring) (log : list Request) :
  isValidToken token = true ->
  (getPersonDetails isValidToken requestUrl convertPersonToTMDBFormat
     pid token log).2
  = log ++ [detailsRequest pid token; creditsRequest pid token;
            imagesRequest pid token].
Proof.
  intros Htoken. unfold getPersonDetails.
  rewrite await_requests by (by intros [[d c] i] l).
  rewrite Promise_all3_requests, !apiGet_run by exact Htoken.
  cbn [snd]. by rewrite <- !app_assoc.
Qed.

(** The outcome of the three fetches: the record when all three succeed,
    else the error of a failed fetch that no failed fetch settled before. *)
Lemma getPersonDetails_outcome (pid : Z) (token : jsstring) (log : list Request) :
  isValidToken token = true ->
  let fetches := [detailsRequest pid token; creditsRequest pid token;
                  imagesRequest pid token] in
  let p := (getPersonDetails isValidToken requestUrl convertPersonToTMDBFormat
              pid token log).1 in
  match (requestUrl (detailsRequest pid token)).2,
        (requestUrl (creditsRequest pid token)).2,
        (requestUrl (imagesRequest pid token)).2 with
  | inr details, inr credits, inr images =>
      outcome p = inr (convertPersonToTMDBFormat details credits images)
  | _, _, _ =>
      exists r failure,
        r ∈ fetches
        /\ (requestUrl r).2 = inl failure
        /\ outcome p = inl (ApiError failure)
        /\ forall r' failure',
             r' ∈ fetches -> (requestUrl r').2 = inl failure' ->
             ((requestUrl r).1 <= (requestUrl r').1)%nat
  end.
Proof.
  intros Htoken. cbn zeta. unfold getPersonDetails.
  rewrite await_outcome, Promise_all3_outcome.
  rewrite !apiGet_run by exact Htoken.
  fold (detailsRequest pid token) (creditsRequest pid token)
       (imagesRequest pid token).
  cbn [outcome settledAt fst snd].
  set (rd := detailsRequest pid token).
  set (rc := creditsRequest pid token).
  set (ri := imagesRequest pid token).
  set (rejections :=
    omap id [rejectionOf (mkPromise (requestUrl rd).1 (answerOf (requestUrl rd).2));
             rejectionOf (mkPromise (requestUrl rc).1 (answerOf (requestUrl rc).2));
             rejectionOf (mkPromise (requestUrl ri).1 (answerOf (requestUrl ri).2))]).
  assert (Hrej : forall t e, (t, e) ∈ rejections <->
            exists r failure, r ∈ [rd; rc; ri] /\ (requestUrl r).2 = inl failure
                              /\ t = (requestUrl r).1 /\ e = ApiError failure).
  { intros t e. unfold rejections.
    change (omap id _) with
      (omap (fun r => rejectionOf
                        (mkPromise (requestUrl r).1 (answerOf (requestUrl r).2)))
            [rd; rc; ri]).
    rewrite list_elem_of_omap. split.
    - intros (r & Hin & Hr).
      apply rejectionOf_answer in Hr as (failure & Hfail & Ht & He).
      exists r, failure. done.
    - intros (r & failure & Hin & Hfail & Ht & He).
      exists r. split; [exact Hin|]. apply rejectionOf_answer. eauto. }
  assert (Hsome : forall r failure, r ∈ [rd; rc; ri] ->
            (requestUrl r).2 = inl failure ->
            exists r0 failure0,
              r0 ∈ [rd; rc; ri] /\ (requestUrl r0).2 = inl failure0
              /\ firstRejection rejections
                 = Some ((requestUrl r0).1, ApiError failure0)
              /\ forall r' failure', r' ∈ [rd; rc; ri] ->
                   (requestUrl r').2 = inl failure' ->
                   ((requestUrl r0).1 <= (requestUrl r').1)%nat).
  { intros r failure Hin Hfail.
    destruct (firstRejection_earliest rejections) as (t & e & Hfirst & Hmem & Hmin).
    - intros Hnil.
      assert (((requestUrl r).1, ApiError failure) ∈ rejections) as Hr
        by (apply Hrej; eauto 10).
      rewrite Hnil in Hr. by apply not_elem_of_nil in Hr.
    - apply Hrej in Hmem as (r0 & failure0 & Hin0 & Hfail0 & -> & ->).
      exists r0, failure0. repeat split; try done.
      intros r' failure' Hin' Hfail'. apply (Hmin _ (ApiError failure')).
      apply Hrej. eauto 10. }
  destruct (requestUrl rd).2 as [fd|jd] eqn:Hd.
  { destruct (Hsome rd fd) as (r0 & f0 & Hin0 & Hfail0 & Hfirst & Hmin);
      [by repeat constructor | exact Hd |].
    exists r0, f0. cbn [answerOf]. rewrite Hfirst. done. }
  destruct (requestUrl rc).2 as [fc|jc] eqn:Hc.
  { destruct (Hsome rc fc) as (r0 & f0 & Hin0 & Hfail0 & Hfirst & Hmin);
      [by repeat constructor | exact Hc |].
    exists r0, f0. cbn [answerOf]. rewrite Hfirst. done. }
  destruct (requestUrl ri).2 as [fi|ji] eqn:Hi.
  { destruct (Hsome ri fi) as (r0 & f0 & Hin0 & Hfail0 & Hfirst & Hmin);
      [by repeat constructor | exact Hi |].
    exists r0, f0. cbn [answerOf]. rewrite Hfirst. done. }
  reflexivity.
Qed.

(** C6. With a valid id and a valid token [getMovieById] issues the
    details, credits and images requests, all three, whatever their
    answers. If any of them fails the call fails, with the error of a
    failed fetch that no other failed fetch settled before, and no record
    is returned; in particular a failing credits fetch beside succeeding
    details and images fetches makes the call fail with the credits
    error. A record is returned only when all three succeed. *)
Theorem getMovieById_all_or_nothing (pid : Z) (token : jsstring)
    (userRating : option Q) (log : list Request) :
  isValidMovieId pid = true ->
  isValidToken token = true ->
  let fetches := [detailsRequest pid token; creditsRequest pid token;
                  imagesRequest pid token] in
  let run := getMovieById isValidToken isValidMovieId requestUrl toLowerCase
               convertPersonToTMDBFormat pid token userRating log in
  run.2 = log ++ fetches
  /\ (forall r failure,
        r ∈ fetches -> (requestUrl r).2 = inl failure ->
        exists r0 failure0,
          r0 ∈ fetches
          /\ (requestUrl r0).2 = inl failure0
          /\ ((requestUrl r0).1 <= (requestUrl r).1)%nat
          /\ outcome run.1 = inl (ApiError failure0))
  /\ (forall failure details images,
        (requestUrl (creditsRequest pid token)).2 = inl failure ->
        (requestUrl (detailsRequest pid token)).2 = inr details ->
        (requestUrl (imagesRequest pid token)).2 = inr images ->
        outcome run.1 = inl (ApiError failure))
  /\ (forall details credits images,
        (requestUrl (detailsRequest pid token)).2 = inr details ->
        (requestUrl (creditsRequest pid token)).2 = inr credits ->
        (requestUrl (imagesRequest pid token)).2 = inr images ->
        outcome run.1
        = inr (createMovieShowFrom toLowerCase
                 (convertPersonToTMDBFormat details credits images)
                 userRating)).
Proof.
  intros Hid Htoken. cbn zeta.
  unfold getMovieById. rewrite Hid, Htoken. cbn [negb].
  rewrite await_requests by reflexivity.
  rewrite await_outcome, getPersonDetails_requests by exact Htoken.
  pose proof (getPersonDetails_outcome pid token log Htoken) as Hout.
  cbn zeta in Hout.
  split; [reflexivity|]. split; [|split].
  - intros r failure Hin Hfail.
    destruct (requestUrl (detailsRequest pid token)).2 as [fd|jd] eqn:Hd;
      [|destruct (requestUrl (creditsRequest pid token)).2 as [fc|jc] eqn:Hc;
        [|destruct (requestUrl (imagesRequest pid token)).2 as [fi|ji] eqn:Hi]].
    1-3: destruct Hout as (r0 & failure0 & Hin0 & Hfail0 & Hp & Hmin);
         exists r0, failure0; rewrite Hp; eauto 10.
    exfalso.
    apply elem_of_cons in Hin as [-> | Hin]; [congruence|].
    apply elem_of_cons in Hin as [-> | Hin]; [congruence|].
    apply list_elem_of_singleton in Hin as ->. congruence.
  - intros failure details images Hc Hd Hi.
    rewrite Hd, Hc in Hout.
    destruct Hout as (r0 & failure0 & Hin0 & Hfail0 & Hp & _).
    rewrite Hp.
    apply elem_of_cons in Hin0 as [-> | Hin0]; [congruence|].
    apply elem_of_cons in Hin0 as [-> | Hin0]; [congruence|].
    apply list_elem_of_singleton in Hin0 as ->. congruence.
  - intros details credits images Hd Hc Hi.
    rewrite Hd, Hc, Hi in Hout. by rewrite Hout.
Qed.

(** *** The helpers that degrade *)

(** C7. [getAllImages] and [validateToken] never raise: the promise of
    either is always fulfilled. When the fetch of the image listing
    fails, by a transport error or by a status outside 2xx,
    [getAllImages] yields the three empty buckets; when the probe of
    [validateToken] fails, it yields false. *)
Theorem helpers_degrade_silently (pid : Z) (token : jsstring)
    (log : list Request) :
  (exists buckets,
     outcome (getAllImages isValidToken requestUrl pid token log).1
     = inr buckets)
  /\ (exists valid,
        outcome (validateToken isValidToken requestUrl token log).1
        = inr valid)
  /\ (forall failure,
        (requestUrl (imagesRequest pid token)).2 = inl failure ->
        outcome (getAllImages isValidToken requestUrl pid token log).1
        = inr emptyBuckets)
  /\ (forall failure,
        (requestUrl (configurationRequest token)).2 = inl failure ->
        outcome (validateToken isValidToken requestUrl token log).1
        = inr false).
Proof.
  unfold getAllImages, validateToken.
  destruct (isValidToken token) eqn:Htoken; cbn [negb].
  - rewrite !tryCatch_outcome, !await_outcome, !apiGet_run by exact Htoken.
    fold (imagesRequest pid token) (configurationRequest token).
    cbn [fst snd outcome].
    destruct (requestUrl (imagesRequest pid token)).2 as [fi|[| | |]];
      destruct (requestUrl (configurationRequest token)).2 as [fc|jc];
      cbn; repeat split; eauto; intros failure [=].
  - rewrite !tryCatch_outcome, !await_outcome, !apiGet_invalid by exact Htoken.
    cbn. repeat split; eauto.
Qed.

End Client.

(** *** The theorems at sample inputs *)

Lemma searchByQuery_ranked_witness :
  notBlank (str "Tom") = true
  /\ notBlank (str "token") = true
  /\ exists entries : list Entry,
       (length entries <= 20)%nat
       /\ StronglySorted (fun a b => (score b <= score a)%Q) entries
       /\ outcome
            (searchByQuery notBlank notBlank searchAnswers
               (calculateRelevanceScore asciiToLowerCase)
               (str "Tom") (str "token") []).1
          = match entries with
            | [] => inl (NothingFound (str "Tom"))
            | _ => inr (item <$> entries)
            end.
Proof.
  assert (Hvalid : notBlank (str "Tom") = true) by (vm_compute; reflexivity).
  assert (Htoken : notBlank (str "token") = true) by (vm_compute; reflexivity).
  split; [exact Hvalid|]. split; [exact Htoken|].
  destruct (searchByQuery_ranked notBlank notBlank searchAnswers
              (calculateRelevanceScore asciiToLowerCase) (str "Tom") (str "token")
              (Some [tom_hanks; tom]) 1 [] Hvalid Htoken eq_refl)
    as (entries & _ & Hsorted & _ & Hlen & _ & Hout).
  exists entries. split; [exact Hlen|]. split; [exact Hsorted|exact Hout].
Defined.


Lemma getMovieById_all_or_nothing_witness :
  positiveId 31 = true
  /\ notBlank (str "token") = true
  /\ outcome
       (getMovieById notBlank positiveId creditsDown asciiToLowerCase anyRecord
          31 (str "token") None []).1
     = inl (ApiError (HttpStatus 500)).
Proof.
  assert (Hid : positiveId 31 = true) by (vm_compute; reflexivity).
  assert (Htoken : notBlank (str "token") = true) by (vm_compute; reflexivity).
  split; [exact Hid|]. split; [exact Htoken|].
  apply (proj1 (proj2 (proj2
    (getMovieById_all_or_nothing notBlank positiveId creditsDown
       asciiToLowerCase anyRecord 31 (str "token") None [] Hid Htoken)))
    (HttpStatus 500) (JOther (str "{}")) (JOther (str "{}"))).
  all: vm_compute; reflexivity.
Defined.

(** The search on the two sample results: the exact match comes first
    although the other is the more popular. *)
Example searchByQuery_sample :
  outcome
    (searchByQuery notBlank notBlank searchAnswers
               (calculateRelevanceScore asciiToLowerCase)
       (str "Tom") (str "token") []).1
  = inr [convertToSuggestItem tom; convertToSuggestItem tom_hanks].
Proof. vm_compute. reflexivity. Qed.

(** Two results whose exact sums are equal keep the order of the
    response when ranked by the exact sums; ranked by the doubles that the
    runtime computes for them, of which the second is the greater, they
    come out in the other order. *)
Example searchByQuery_doubles :
  outcome
    (searchByQuery notBlank notBlank twoTies
       (calculateRelevanceScore asciiToLowerCase)
       (str "Tom") (str "token") []).1
  = inr [convertToSuggestItem tom_016; convertToSuggestItem tom_hanks_50016]
  /\ outcome
       (searchByQuery notBlank notBlank twoTies doubleScores
          (str "Tom") (str "token") []).1
     = inr [convertToSuggestItem tom_hanks_50016; convertToSuggestItem tom_016].
Proof. split; vm_compute; reflexivity. Qed.

(** With the transport down the helpers answer, and the record fetch
    fails. *)
Example offline_sample :
  outcome (getAllImages notBlank offline 31 (str "token") []).1
  = inr emptyBuckets
  /\ outcome (validateToken notBlank offline (str "token") []).1 = inr false
  /\ outcome
       (getMovieById notBlank positiveId offline asciiToLowerCase anyRecord
          31 (str "token") None []).1
     = inl (ApiError NetworkFailure).
Proof. repeat split; vm_compute; reflexivity. Qed.

End ProviderProps.

(** ** More properties of the string primitives *)

Module JSMoreProps.

Import JSProps FormatterProps.

Lemma trimStart_blank (s : jsstring) :
  trimStart s = [] <-> Forall (fun c => isWhiteSpace c = true) s.
Proof.
  induction s as [|c s IH]; cbn.
  - split; [constructor | reflexivity].
  - destruct (isWhiteSpace c) eqn:Hc.
    + rewrite IH. split; [by constructor|]. by intros [_ H]%Forall_cons.
    + split; [discriminate|]. intros [H _]%Forall_cons. congruence.
Qed.

Lemma trimEnd_blank (s : jsstring) :
  trimEnd s = [] <-> Forall (fun c => isWhiteSpace c = true) s.
Proof.
  unfold trimEnd. rewrite <- (reverse_involutive s) at 2.
  rewrite Forall_reverse, <- trimStart_blank.
  split; [|by intros ->].
  intros H. apply (f_equal reverse) in H. by rewrite reverse_involutive in H.
Qed.

(** A string trims to nothing exactly when it is all white space. *)
Lemma trim_blank (s : jsstring) :
  trim s = [] <-> Forall (fun c => isWhiteSpace c = true) s.
Proof.
  unfold trim. rewrite trimEnd_blank. split.
  - intros Hall. destruct (decide (trimStart s = [])) as [Hnil|Hne].
    + by apply trimStart_blank.
    + exfalso. pose proof (trimStart_startTrimmed s) as Hst.
      destruct (trimStart s) as [|c r]; [done|].
      apply Forall_cons in Hall as [Hc _]. cbn in Hst. congruence.
  - intros Hall. apply trimStart_blank in Hall. rewrite Hall. constructor.
Qed.

Lemma trim_cons_nonblank (c : N) (r : jsstring) :
  isWhiteSpace c = false -> trim (c :: r) <> [].
Proof.
  intros Hc Hnil. apply trim_blank in Hnil.
  apply Forall_cons in Hnil as [Hws _]. congruence.
Qed.

End JSMoreProps.

(** ** More properties of the data formatter *)

Module FormatterMoreProps.

Import Formatter FormatterMore Spec MoreSpec Samples MoreSamples.
Import JSProps JSMoreProps FormatterProps ProviderProps.

(** *** Age ratings *)

Lemma valueOr0_own (table : list (jsstring * Z)) (key : jsstring) (n : Z) :
  valueOr0 (list_to_map table) key = Some n -> n = 0%Z \/ n ∈ table.*2.
Proof.
  unfold valueOr0.
  destruct (list_to_map table !! key) as [v|] eqn:Hv.
  - apply elem_of_list_to_map_2 in Hv.
    case_bool_decide; intros [= <-]; [by left|]. right.
    apply list_elem_of_fmap. by exists (key, v).
  - case_bool_decide; [discriminate|]. intros [= <-]. by left.
Qed.

Lemma valueOr0_inherited (table : list (jsstring * Z)) (key : jsstring) :
  Forall (fun own => own ∉ Object_prototype_names) table.*1 ->
  valueOr0 (list_to_map table) key = None <-> key ∈ Object_prototype_names.
Proof.
  intros Hown. unfold valueOr0.
  destruct (list_to_map table !! key) as [v|] eqn:Hv.
  - apply elem_of_list_to_map_2 in Hv.
    rewrite Forall_forall in Hown.
    assert (Hkey : key ∉ Object_prototype_names).
    { apply Hown. apply list_elem_of_fmap. by exists (key, v). }
    case_bool_decide; split; try discriminate; intros Hin; contradiction.
  - case_bool_decide; split; try discriminate; try contradiction; done.
Qed.

(** X8. The numeric age rating of a movie is read from the table at the MPAA
    string that [extractMpaaRating] reports for the same payload, so the
    two fields never disagree. When it is a number it is one of 0, 6, 13,
    17, 18, and for a TV show one of 0, 7, 10, 14, 17; any certification
    that the table does not know gives 0. It is not a number exactly when
    the certification is a name that every object inherits, such as
    constructor. *)
Theorem age_rating_follows_certification
    (releaseDates : option RawReleaseDates)
    (contentRatings : option RawContentRatings) :
  extractAgeRating releaseDates
  = valueOr0 AGE_RATING_MAP_MOVIE (extractMpaaRating releaseDates)
  /\ (forall n, extractAgeRating releaseDates = Some n ->
                n ∈ [0; 6; 13; 17; 18]%Z)
  /\ (extractAgeRating releaseDates = None
      <-> extractMpaaRating releaseDates ∈ Object_prototype_names)
  /\ (forall n, extractTVAgeRating contentRatings = Some n ->
                n ∈ [0; 7; 10; 14; 17]%Z).
Proof.
  assert (Hsame : extractAgeRating releaseDates
                  = valueOr0 AGE_RATING_MAP_MOVIE
                      (extractMpaaRating releaseDates)).
  { unfold extractAgeRating, extractMpaaRating.
    destruct (releaseDates ≫= release_results) as [results|];
      lazy beta iota; [|by vm_compute].
    destruct (firstCertification _) as [cert|]; [reflexivity|].
    by vm_compute. }
  split; [exact Hsame|]. split; [|split].
  - rewrite Hsame. unfold AGE_RATING_MAP_MOVIE.
    intros n [-> | Hn]%valueOr0_own; [by left|].
    cbn in Hn. set_unfold. intuition (subst; auto).
  - rewrite Hsame. unfold AGE_RATING_MAP_MOVIE. apply valueOr0_inherited.
    cbn [fmap list_fmap fst].
    repeat (apply Forall_cons; split;
            [apply (bool_decide_eq_false_1 _); vm_compute; reflexivity|]).
    constructor.
  - unfold extractTVAgeRating.
    destruct (contentRatings ≫= rating_results) as [results|];
      [|intros n [= <-]; by left].
    destruct (truthy _) as [r|]; [|intros n [= <-]; by left].
    unfold AGE_RATING_MAP_TV.
    intros n [-> | Hn]%valueOr0_own; [by left|].
    cbn in Hn. set_unfold. intuition (subst; auto).
Qed.

(** A payload with two countries gives the first certification of the
    US entry; a TV rating; a payload without results. *)
Example age_rating_examples :
  extractAgeRating
    (Some {| release_results :=
               Some [ {| release_iso_3166_1 := Some (str "DE");
                         release_dates :=
                           Some [ {| certification := Some (str "12") |} ] |};
                      {| release_iso_3166_1 := Some (str "US");
                         release_dates :=
                           Some [ {| certification := Some (str "PG-13") |};
                                  {| certification := Some (str "R") |} ] |} ] |})
  = Some 13%Z
  /\ extractTVAgeRating
       (Some {| rating_results :=
                  Some [ {| rating_iso_3166_1 := Some (str "US");
                            rating := Some (str "TV-MA") |} ] |})
     = Some 17%Z
  /\ extractAgeRating (Some {| release_results := Some [] |}) = Some 0%Z.
Proof. repeat split; vm_compute; reflexivity. Qed.

(** *** Text cleaning *)

Lemma removeColons_clean (s : jsstring) : 58 ∉ s -> removeColons s = s.
Proof.
  intros Hno. unfold removeColons.
  induction s as [|c s IH]; [reflexivity|].
  apply not_elem_of_cons in Hno as [Hc Hs].
  rewrite filter_cons, decide_True by congruence. by rewrite IH.
Qed.

(** X9. Cleaning is idempotent, and what it yields has no colon and no white
    space at either end: a cleaned name can be cleaned again, or used in
    a link, without change. *)
Theorem cleanTextForMetadata_idempotent (text : jsstring) :
  cleanTextForMetadata (cleanTextForMetadata text) = cleanTextForMetadata text
  /\ (58 ∉ cleanTextForMetadata text)
  /\ trim (cleanTextForMetadata text) = cleanTextForMetadata text.
Proof.
  destruct (cleanTextForMetadata_isClean text) as [Hcolon Htrim].
  split; [|by split].
  destruct (cleanTextForMetadata text) as [|c r] eqn:Hclean; [reflexivity|].
  unfold cleanTextForMetadata at 1.
  by rewrite removeColons_clean.
Qed.

(** *** Array formatting *)

Lemma length_omap_le {A B} (f : A -> option B) (l : list A) :
  (length (omap f l) <= length l)%nat.
Proof.
  induction l as [|x l IH]; cbn; [lia|].
  destruct (f x); cbn; lia.
Qed.

Lemma omap_keptString_blank (items : list Item) :
  Forall blankItem items -> omap keptString (toStringItem <$> items) = [].
Proof.
  induction 1 as [|item items Hblank _ IH]; [reflexivity|].
  rewrite fmap_cons. cbn [omap list_omap]. rewrite IH.
  destruct item as [s|[|c name] id]; cbn in *.
  - by rewrite bool_decide_eq_false_2 by (unfold nonBlank; tauto).
  - reflexivity.
  - by rewrite bool_decide_eq_false_2 by (unfold nonBlank; tauto).
Qed.

Lemma omap_keptObject_blank (items : list Item) :
  Forall blankItem items -> omap keptObject items = [].
Proof.
  induction 1 as [|item items Hblank _ IH]; [reflexivity|].
  cbn [omap list_omap]. rewrite IH.
  destruct item as [s|name id]; cbn in *; [reflexivity|].
  by rewrite bool_decide_eq_false_2 by (unfold nonBlank; tauto).
Qed.

(** X10. In every mode the formatted array is no longer than the cap and no
    longer than the input, and blank entries produce nothing: an input of
    blank entries only gives the empty array. *)
Theorem formatArray_bounds (items : list Item) (formatType : FormatType)
    (folderPath : option jsstring) (maxItems : nat) :
  (length (formatArray items formatType folderPath maxItems) <= maxItems)%nat
  /\ (length (formatArray items formatType folderPath maxItems)
      <= length items)%nat
  /\ (Forall blankItem items ->
      formatArray items formatType folderPath maxItems = []).
Proof.
  pose proof (length_omap_le keptString (toStringItem <$> items)) as Hs.
  pose proof (length_omap_le keptObject items) as Ho.
  rewrite length_fmap in Hs.
  split; [|split].
  - destruct formatType; cbn; rewrite ?length_fmap, length_take; lia.
  - destruct formatType; cbn; rewrite ?length_fmap, length_take; lia.
  - intros Hblank.
    destruct formatType; cbn;
      rewrite ?omap_keptString_blank, ?omap_keptObject_blank by exact Hblank;
      by rewrite take_nil.
Qed.

Lemma usablePath_noFolder (folderPath : option jsstring) :
  noFolder folderPath -> usablePath folderPath = None.
Proof.
  destruct folderPath as [[|c path]|]; cbn; try reflexivity.
  intros Hblank. by rewrite bool_decide_eq_false_2 by (unfold nonBlank; tauto).
Qed.

(** X11. A folder path that is absent, empty or blank is ignored: the
    link-with-path mode then gives what the link mode gives, and the
    id-link mode what it gives without a folder. *)
Theorem formatArray_without_folder (items : list Item)
    (folderPath : option jsstring) (maxItems : nat) :
  noFolder folderPath ->
  formatArray items LINK_WITH_PATH folderPath maxItems
  = formatArray items LINK None maxItems
  /\ formatArray items LINK_ID_WITH_PATH folderPath maxItems
     = formatArray items LINK_ID_WITH_PATH None maxItems.
Proof.
  intros Hno. unfold formatArray.
  rewrite (usablePath_noFolder _ Hno). by split.
Qed.

Lemma formatArray_without_folder_witness :
  noFolder (Some (str "  "))
  /\ formatArray [ItemString (str "Drama")] LINK_WITH_PATH (Some (str "  ")) 50
     = formatArray [ItemString (str "Drama")] LINK None 50.
Proof.
  assert (Hno : noFolder (Some (str "  "))) by (vm_compute; reflexivity).
  split; [exact Hno|].
  exact (proj1 (formatArray_without_folder [ItemString (str "Drama")]
                  (Some (str "  ")) 50 Hno)).
Defined.

(** *** Image links *)

Lemma buildImageUrl_head (path size : jsstring) :
  buildImageUrl path size
  = str "http" ++ (str "s://image.tmdb.org/t/p/" ++ size ++ path).
Proof. reflexivity. Qed.

Lemma startsWith_app (q r : jsstring) : startsWith (q ++ r) q = true.
Proof.
  induction q as [|c q IH]; cbn; [by destruct r|]. by rewrite N.eqb_refl.
Qed.

(** X12. An address built by [buildImageUrl] always becomes one embedded image
    in the external form; a blank path becomes no link at all; and a link
    array never has more than one element. *)
Theorem createImageLink_cases (imagePath path size : jsstring) :
  createImageLink (buildImageUrl path size)
  = [str "![](" ++ buildImageUrl path size ++ str ")"]
  /\ (trim imagePath = [] -> createImageLink imagePath = [])
  /\ (length (createImageLink imagePath) <= 1)%nat.
Proof.
  split; [|split].
  - unfold createImageLink. rewrite buildImageUrl_head, startsWith_app.
    rewrite bool_decide_eq_false_2 by (by vm_compute).
    rewrite bool_decide_eq_false_2; [reflexivity|].
    by apply trim_cons_nonblank.
  - intros Hblank. unfold createImageLink.
    rewrite (bool_decide_eq_true_2 (trim imagePath = [])) by exact Hblank.
    by rewrite orb_true_r.
  - unfold createImageLink.
    destruct (_ || _); [cbn; lia|]. destruct (negb _); cbn; lia.
Qed.

(** *** Seasons *)

Lemma Math_ceil_div_exact (k n : Z) :
  (0 < n)%Z -> Math_ceil_div (n * k) n = k.
Proof.
  intros Hn. unfold Math_ceil_div.
  replace (- (n * k))%Z with ((- k) * n)%Z by lia.
  rewrite Z.div_mul by lia. lia.
Qed.

Lemma foldl_episodes_uniform (k acc : Z) (l : list SeasonInfo) :
  Forall (fun s => episodesCount s = k) l ->
  foldl (fun total season => (total + episodesCount season)%Z) acc l
  = (acc + Z.of_nat (length l) * k)%Z.
Proof.
  intros Hall. revert acc.
  induction Hall as [|s l Hs _ IH]; intros acc; cbn [foldl length].
  - lia.
  - rewrite IH, Hs. lia.
Qed.

(** X13. When every season has the same number of episodes, that number is
    the average; without seasons both aggregates are 0. *)
Theorem calculateSeasonsData_uniform (k : Z) (seasonsInfo : list SeasonInfo) :
  seasonsInfo <> [] ->
  Forall (fun s => episodesCount s = k) seasonsInfo ->
  calculateSeasonsData (Some seasonsInfo)
  = {| count := Z.of_nat (length seasonsInfo);
       averageEpisodesPerSeason := k |}
  /\ calculateSeasonsData None = calculateSeasonsData (Some [])
  /\ calculateSeasonsData None
     = {| count := 0; averageEpisodesPerSeason := 0 |}.
Proof.
  intros Hne Hall. split; [|by split].
  destruct seasonsInfo as [|s l]; [done|].
  unfold calculateSeasonsData.
  rewrite (foldl_episodes_uniform k 0 (s :: l) Hall).
  rewrite Z.add_0_l, Math_ceil_div_exact; [reflexivity|].
  cbn [length]. lia.
Qed.

Lemma calculateSeasonsData_uniform_witness :
  [ {| number := 1; episodesCount := 10 |};
    {| number := 2; episodesCount := 10 |} ] <> []
  /\ calculateSeasonsData
       (Some [ {| number := 1; episodesCount := 10 |};
               {| number := 2; episodesCount := 10 |} ])
     = {| count := 2; averageEpisodesPerSeason := 10 |}.
Proof.
  split; [discriminate|].
  apply (proj1 (calculateSeasonsData_uniform 10
                  [ {| number := 1; episodesCount := 10 |};
                    {| number := 2; episodesCount := 10 |} ]
                  ltac:(discriminate)
                  ltac:(repeat constructor))).
Defined.

(** *** People by role *)

(** A closed equation between two different literals is absurd. *)
Ltac absurd_literal :=
  match goal with
  | H : str _ = str _ |- _ => vm_compute in H; discriminate H
  | H : str _ = [] |- _ => vm_compute in H; discriminate H
  | H : [] = str _ |- _ => vm_compute in H; discriminate H
  end.

Lemma foldl_extractPeopleStep (acc : PeopleByRole) (persons : list TMDBPerson) :
  directors (foldl extractPeopleStep acc persons)
  = directors acc ++ withRole (str "director") persons
  /\ actors (foldl extractPeopleStep acc persons)
     = actors acc ++ withRole (str "actor") persons
  /\ writers (foldl extractPeopleStep acc persons)
     = writers acc ++ withRole (str "writer") persons
  /\ producers (foldl extractPeopleStep acc persons)
     = producers acc ++ withRole (str "producer") persons.
Proof.
  revert acc. induction persons as [|person persons IH]; intros acc.
  - cbn. by rewrite !app_nil_r.
  - cbn [foldl]. destruct (IH (extractPeopleStep acc person)) as (-> & -> & -> & ->).
    unfold withRole. cbn [omap list_omap]. unfold extractPeopleStep.
    destruct (person_name person) as [|c name];
      [by repeat split|].
    destruct (person_enProfession person) as [[|e code]|] eqn:Hcode.
    + repeat case_bool_decide; simplify_eq; try absurd_literal.
      by repeat split.
    + lazy beta iota. set (E := e :: code) in *. clearbody E. clear Hcode.
      repeat (case_bool_decide; simplify_eq; try absurd_literal);
        cbn [directors actors writers producers];
        rewrite <- ?app_assoc; by repeat split.
    + repeat case_bool_decide; simplify_eq. by repeat split.
Qed.

(** X14. [extractPeople] puts every person that has a name into the list of
    its profession and into no other, in the order of the input; a person
    without a name, or with a profession other than director, actor,
    writer and producer, is in no list. *)
Theorem extractPeople_by_role (persons : list TMDBPerson) :
  directors (extractPeople persons) = withRole (str "director") persons
  /\ actors (extractPeople persons) = withRole (str "actor") persons
  /\ writers (extractPeople persons) = withRole (str "writer") persons
  /\ producers (extractPeople persons) = withRole (str "producer") persons.
Proof. apply foldl_extractPeopleStep. Qed.

Lemma classifyCrew_codes (p : RawCredit) (code : jsstring) :
  classifyCrew p = Some code ->
  code ∈ [str "director"; str "writer"; str "producer"].
Proof.
  unfold classifyCrew.
  assert (Hjob : forall title c, lookupJob jobTable title = Some c ->
                   c ∈ [str "director"; str "writer"; str "producer"]).
  { intros title c. unfold jobTable. cbn [lookupJob].
    repeat case_bool_decide; intros [= <-]; set_solver. }
  destruct (job p ≫= lookupJob jobTable) as [c|] eqn:Hc.
  - intros [= <-]. destruct (job p) as [title|]; [|discriminate].
    by apply (Hjob title).
  - case_bool_decide; intros [= <-]. set_solver.
Qed.

Lemma withRole_cast (code : jsstring) (l : list RawCredit) :
  withRole code ((fun p => classified p (str "actor")) <$> l)
  = if bool_decide (str "actor" = code) then namedCredits l else [].
Proof.
  unfold withRole, namedCredits.
  induction l as [|p l IH]; [by case_bool_decide|].
  rewrite fmap_cons. cbn [omap list_omap classified personEntry person_name
                          person_enProfession person_id].
  rewrite IH.
  destruct (credit_name p); repeat case_bool_decide; simplify_eq; done.
Qed.

Lemma withRole_crew (code : jsstring) (l : list RawCredit) :
  withRole code (omap (fun p => classified p <$> classifyCrew p) l)
  = namedCredits (crewOf code l).
Proof.
  unfold withRole, namedCredits, crewOf.
  induction l as [|p l IH]; [reflexivity|].
  rewrite filter_cons. cbn [omap list_omap].
  destruct (classifyCrew p) as [c|] eqn:Hc; cbn [fmap option_fmap option_map].
  - cbn [omap list_omap classified personEntry person_name
         person_enProfession person_id].
    rewrite IH. case_bool_decide as Hcode.
    + simplify_eq. rewrite decide_True by reflexivity. reflexivity.
    + rewrite decide_False by congruence. by destruct (credit_name p).
  - rewrite decide_False by discriminate. exact IH.
Qed.

Lemma withRole_app (code : jsstring) (l1 l2 : list TMDBPerson) :
  withRole code (l1 ++ l2) = withRole code l1 ++ withRole code l2.
Proof. unfold withRole. apply omap_app. Qed.

Lemma crewOf_actor (l : list RawCredit) : crewOf (str "actor") l = [].
Proof.
  unfold crewOf. induction l as [|p l IH]; [reflexivity|].
  rewrite filter_cons, IH. rewrite decide_False; [reflexivity|].
  intros Hc%classifyCrew_codes.
  repeat (apply elem_of_cons in Hc as [Hc | Hc]; [absurd_literal|]).
  by apply not_elem_of_nil in Hc.
Qed.

(** X15. From a credits payload to the role lists: the actors are the first
    twenty cast entries that have a name, and no crew entry; the
    directors, writers and producers are the named crew entries that the
    classification gives that profession, and no cast entry; all in the
    order of the payload. The job titles are read from a table, so the
    statement is for payloads in which no job is a name that every object
    inherits. *)
Theorem extractPeople_of_credits (credits : RawCredits)
    (Hjobs : Forall (fun person =>
                       forall title, job person = Some title ->
                                     title ∉ Object_prototype_names)
                    (default [] (crew credits))) :
  let people := extractPeople (convertCreditsToPersons credits) in
  let cast := default [] (cast credits) in
  let crew := default [] (crew credits) in
  actors people = namedCredits (take 20 cast)
  /\ directors people = namedCredits (crewOf (str "director") crew)
  /\ writers people = namedCredits (crewOf (str "writer") crew)
  /\ producers people = namedCredits (crewOf (str "producer") crew).
Proof.
  cbn zeta. unfold extractPeople, convertCreditsToPersons.
  rewrite foldl_pushCrew, foldl_pushCast. cbn [app].
  rewrite (omap_crewEntry_classified _ Hjobs).
  destruct (foldl_extractPeopleStep
              {| directors := []; actors := []; writers := []; producers := [] |}
              (((fun p => classified p (str "actor"))
                  <$> take 20 (default [] (cast credits)))
               ++ omap (fun p => classified p <$> classifyCrew p)
                       (default [] (crew credits))))
    as (-> & -> & -> & ->).
  cbn [directors actors writers producers app].
  rewrite !withRole_app.
  rewrite !withRole_cast, !withRole_crew, crewOf_actor.
  rewrite bool_decide_eq_true_2 by reflexivity.
  rewrite !bool_decide_eq_false_2
    by (let H := fresh in intros H; vm_compute in H; discriminate H).
  cbn [app namedCredits omap list_omap]. rewrite app_nil_r. by repeat split.
Qed.

Lemma extractPeople_of_credits_witness :
  Forall (fun person =>
            forall title, job person = Some title ->
                          title ∉ Object_prototype_names)
         (default [] (crew sampleCredits))
  /\ writers (extractPeople (convertCreditsToPersons sampleCredits))
     = namedCredits (crewOf (str "writer") (default [] (crew sampleCredits))).
Proof.
  assert (Hjobs : Forall (fun person =>
                            forall title, job person = Some title ->
                                          title ∉ Object_prototype_names)
                         (default [] (crew sampleCredits))).
  { repeat (apply Forall_cons; split;
            [intros title [= <-]; apply (bool_decide_eq_false_1 _);
             vm_compute; reflexivity|]).
    constructor. }
  split; [exact Hjobs|].
  exact (proj1 (proj2 (proj2 (extractPeople_of_credits sampleCredits Hjobs)))).
Defined.

(** The role lists of the sample credits. *)
Example extractPeople_sample :
  let people := extractPeople (convertCreditsToPersons sampleCredits) in
  actors people = [ItemObject (str "Tom Hanks") (Some 31%Z)]
  /\ directors people = [ItemObject (str "Robert Zemeckis") (Some 24%Z)]
  /\ writers people = [ItemObject (str "Eric Roth") (Some 27%Z)]
  /\ producers people = [].
Proof. repeat split; vm_compute; reflexivity. Qed.

(** *** Names *)

Lemma existsb_false {A} (f : A -> bool) (l : list A) :
  existsb f l = false <-> forall x, x ∈ l -> f x = false.
Proof.
  induction l as [|y l IH]; cbn.
  - split; [|reflexivity]. by intros _ x ?%not_elem_of_nil.
  - rewrite orb_false_iff, IH. split.
    + intros [Hy Hl] x [-> | Hx]%elem_of_cons; auto.
    + intros H. split; [apply H; by left|]. intros x Hx. apply H. by right.
Qed.

Lemma filter_all {A} (P : A -> Prop) `{forall x, Decision (P x)} (l : list A) :
  Forall P l -> filter P l = l.
Proof.
  induction 1 as [|x l Hx _ IH]; [reflexivity|].
  by rewrite filter_cons, decide_True, IH.
Qed.

Section NamesMore.

Variable toLowerCase : jsstring -> jsstring.

Lemma englishNamesStep_kept (names U P : list jsstring) (name : jsstring) :
  keptNames toLowerCase names U P ->
  englishOnlyRegex_test (trim name) = true -> name ∈ names ->
  keptNames toLowerCase names (englishNamesStep toLowerCase (U, P) name).1
                  (englishNamesStep toLowerCase (U, P) name).2.
Proof.
  intros (HP & Hded & Hgood) Htest Hin. unfold englishNamesStep.
  destruct (existsb _ P) eqn:Hdup; cbn [fst snd]; [by repeat split|].
  split; [by rewrite fmap_app, HP|]. split.
  - constructor; [exact Hded|]. by rewrite <- HP.
  - apply Forall_app. split; [exact Hgood|].
    apply Forall_singleton. split; [apply trim_idem|]. split; [exact Htest|].
    by exists name.
Qed.

Lemma foldl_englishNamesStep_kept (names l U P : list jsstring) :
  keptNames toLowerCase names U P ->
  Forall (fun name => englishOnlyRegex_test (trim name) = true
                      /\ name ∈ names) l ->
  keptNames toLowerCase names (foldl (englishNamesStep toLowerCase) (U, P) l).1
                  (foldl (englishNamesStep toLowerCase) (U, P) l).2.
Proof.
  intros Hkept Hall. revert U P Hkept.
  induction Hall as [|name l [Htest Hin] _ IH]; intros U P Hkept; [exact Hkept|].
  cbn [foldl].
  pose proof (englishNamesStep_kept names U P name Hkept Htest Hin) as Hstep.
  destruct (englishNamesStep toLowerCase (U, P) name) as [U' P'].
  by apply IH.
Qed.

Lemma extractEnglishNamesOnly_kept (names : list jsstring) :
  exists P, keptNames toLowerCase names (extractEnglishNamesOnly toLowerCase names) P.
Proof.
  unfold extractEnglishNamesOnly.
  eexists. apply (foldl_englishNamesStep_kept names _ [] []).
  - split; [reflexivity|]. split; constructor.
  - apply Forall_forall. intros name [Htest Hin]%list_elem_of_filter. by split.
Qed.

Lemma length_foldl_englishNamesStep (l U P : list jsstring) :
  (length (foldl (englishNamesStep toLowerCase) (U, P) l).1
   <= length U + length l)%nat.
Proof.
  revert U P. induction l as [|name l IH]; intros U P; cbn [foldl length].
  - cbn. lia.
  - unfold englishNamesStep at 2. destruct (existsb _ P).
    + specialize (IH U P). lia.
    + specialize (IH (U ++ [trim name]) (P ++ [baseNameOf (trim name)])).
      rewrite length_app in IH. cbn in IH. lia.
Qed.

Lemma Deduplicated_pairwise (U : list jsstring) :
  Deduplicated toLowerCase U ->
  forall (i j : nat) (x y : jsstring),
    (i < j)%nat -> U !! i = Some x -> U !! j = Some y ->
    areSimilarNames toLowerCase (baseNameOf y) (baseNameOf x) = false.
Proof.
  induction 1 as [|U u Hded IH Hfresh]; intros i j x y Hij Hx Hy.
  - by rewrite lookup_nil in Hx.
  - apply lookup_snoc_Some in Hy as [[Hj Hy] | [Hj <-]].
    + apply lookup_snoc_Some in Hx as [[Hi Hx] | [Hi _]]; [|lia].
      by apply (IH i j).
    + apply lookup_snoc_Some in Hx as [[Hi Hx] | [Hi _]]; [|lia].
      rewrite existsb_false in Hfresh. apply Hfresh.
      apply list_elem_of_fmap. exists x. split; [reflexivity|].
      by eapply list_elem_of_lookup_2.
Qed.

(** X16. Every name that [extractEnglishNamesOnly] returns is the trimmed form
    of an input name, passes the Latin-only test, and has a base name
    similar to the base name of no name returned before it; the result
    is no longer than the input. *)
Theorem extractEnglishNamesOnly_result (names : list jsstring) :
  let kept := extractEnglishNamesOnly toLowerCase names in
  Forall (fun u => trim u = u /\ englishOnlyRegex_test u = true
                   /\ exists n, n ∈ names /\ u = trim n) kept
  /\ (length kept <= length names)%nat
  /\ (forall (i j : nat) (x y : jsstring),
        (i < j)%nat -> kept !! i = Some x -> kept !! j = Some y ->
        areSimilarNames toLowerCase (baseNameOf y) (baseNameOf x) = false).
Proof.
  cbn zeta. destruct (extractEnglishNamesOnly_kept names) as (P & _ & Hded & Hgood).
  split; [exact Hgood|]. split.
  - unfold extractEnglishNamesOnly.
    pose proof (length_foldl_englishNamesStep
                  (filter (fun name => englishOnlyRegex_test (trim name) = true)
                          names) [] []) as Hlen.
    pose proof (length_filter
                  (fun name => englishOnlyRegex_test (trim name) = true) names).
    cbn [length] in Hlen. lia.
  - by apply Deduplicated_pairwise.
Qed.

Lemma foldl_englishNamesStep_again (U : list jsstring) :
  Deduplicated toLowerCase U -> Forall (fun u => trim u = u) U ->
  foldl (englishNamesStep toLowerCase) ([], []) U = (U, baseNameOf <$> U).
Proof.
  induction 1 as [|U u Hded IH Hfresh]; intros Htrim; [reflexivity|].
  apply Forall_app in Htrim as [HU Hu]. rewrite Forall_singleton in Hu.
  rewrite foldl_snoc, IH by exact HU. unfold englishNamesStep.
  rewrite Hu, Hfresh. by rewrite fmap_app.
Qed.

Lemma extractEnglishNamesOnly_again (names : list jsstring) :
  extractEnglishNamesOnly toLowerCase
    (extractEnglishNamesOnly toLowerCase names)
  = extractEnglishNamesOnly toLowerCase names.
Proof.
  destruct (extractEnglishNamesOnly_kept names) as (P & _ & Hded & Hgood).
  set (kept := extractEnglishNamesOnly toLowerCase names) in *.
  unfold extractEnglishNamesOnly at 1.
  rewrite filter_all.
  - rewrite foldl_englishNamesStep_again; [reflexivity|exact Hded|].
    eapply Forall_impl; [exact Hgood|]. by intros u (Ht & _).
  - eapply Forall_impl; [exact Hgood|]. intros u (Ht & Htest & _).
    by rewrite Ht.
Qed.

(** X17. [extractEnglishNamesOnly] is idempotent: applied to its own result it
    changes nothing. The conversion of a person applies it to the
    alternate names and the projection applies it again. *)
Theorem extractEnglishNamesOnly_idempotent (names : list jsstring) :
  extractEnglishNamesOnly toLowerCase
    (extractEnglishNamesOnly toLowerCase names)
  = extractEnglishNamesOnly toLowerCase names.
Proof. exact (extractEnglishNamesOnly_again names). Qed.

Lemma foldl_combineStep (acc l : list jsstring) :
  exists k,
    foldl (combineStep toLowerCase) acc l = acc ++ k
    /\ Forall (fun a => a ∈ l /\ a <> []
                       /\ forall m, m ∈ acc -> m <> [] ->
                                     areSimilarNames toLowerCase a m = false) k.
Proof.
  revert acc. induction l as [|name l IH]; intros acc.
  - exists []. split; [by rewrite app_nil_r | constructor].
  - cbn [foldl].
    assert (Hkeep :
              exists k, foldl (combineStep toLowerCase) acc l = acc ++ k
                /\ Forall (fun a => a ∈ name :: l /\ a <> []
                       /\ forall m, m ∈ acc -> m <> [] ->
                                     areSimilarNames toLowerCase a m = false) k).
    { destruct (IH acc) as (k & -> & Hk). exists k.
      split; [reflexivity|]. eapply Forall_impl; [exact Hk|].
      intros a (Ha & Hne & Hsim). split; [by right | by split]. }
    unfold combineStep at 2. destruct name as [|c name]; [exact Hkeep|].
    destruct (existsb _ acc) eqn:Hdup; [exact Hkeep|]. clear Hkeep.
    destruct (IH (acc ++ [c :: name])) as (k & -> & Hk).
    exists ((c :: name) :: k). split; [by rewrite <- app_assoc|].
    constructor.
    + split; [by left|]. split; [discriminate|].
      intros m Hm Hne. rewrite existsb_false in Hdup.
      specialize (Hdup m Hm). by destruct m.
    + eapply Forall_impl; [exact Hk|].
      intros a (Ha & Hne & Hsim). split; [by right|]. split; [exact Hne|].
      intros m Hm. apply Hsim. apply elem_of_app. by left.
Qed.

(** X18. The aliases start with the primary names that are not blank, in
    their order; after them come alternate names only, each of them not
    blank and similar to no primary name that is not empty. No alias is
    blank. *)
Theorem combineNamesForAliases_result (mainNames alsoKnownAsNames : list jsstring) :
  exists added,
    combineNamesForAliases toLowerCase mainNames alsoKnownAsNames
    = filter nonBlank mainNames ++ added
    /\ Forall (fun a => a ∈ alsoKnownAsNames /\ nonBlank a
                       /\ forall m, m ∈ mainNames -> m <> [] ->
                             areSimilarNames toLowerCase a m = false) added
    /\ Forall nonBlank
         (combineNamesForAliases toLowerCase mainNames alsoKnownAsNames).
Proof.
  unfold combineNamesForAliases.
  destruct (foldl_combineStep mainNames alsoKnownAsNames) as (k & -> & Hk).
  exists (filter nonBlank k). split; [apply filter_app|]. split.
  - apply Forall_forall. intros a [Hnb Ha]%list_elem_of_filter.
    rewrite Forall_forall in Hk. destruct (Hk a Ha) as (Hin & _ & Hsim).
    by repeat split.
  - apply Forall_forall. by intros a [Hnb _]%list_elem_of_filter.
Qed.

End NamesMore.

(** *** Birth place *)

Lemma split_no_separator (sep : N) (s : jsstring) :
  sep ∉ s -> split sep s = [s].
Proof.
  induction s as [|c s IH]; [reflexivity|].
  intros [Hc Hs]%not_elem_of_cons. cbn [split].
  rewrite (proj2 (N.eqb_neq c sep)) by congruence. by rewrite IH.
Qed.

Lemma split_last_part (sep : N) (before after : jsstring) :
  sep ∉ after ->
  exists parts, parts <> [] /\ split sep (before ++ sep :: after) = parts ++ [after].
Proof.
  intros Hafter. induction before as [|c before (parts & Hne & IH)].
  - exists [[]]. split; [discriminate|]. cbn [app split].
    by rewrite N.eqb_refl, split_no_separator.
  - cbn [app split]. rewrite IH. destruct (c =? sep).
    + exists ([] :: parts). by split.
    + destruct parts as [|part parts]; [done|].
      exists ((c :: part) :: parts). by split.
Qed.

(** X19. The country of a birth place is the trimmed text after its last
    comma, or the trimmed birth place when it has no comma; when that
    text is blank the birth place is returned as it is. *)
Theorem extractCountryFromBirthPlace_last_part (before after : jsstring) :
  44 ∉ after ->
  (trim after <> [] ->
   extractCountryFromBirthPlace (before ++ 44 :: after) = trim after
   /\ extractCountryFromBirthPlace after = trim after)
  /\ (trim after = [] ->
      extractCountryFromBirthPlace (before ++ 44 :: after)
      = before ++ 44 :: after
      /\ extractCountryFromBirthPlace after = after).
Proof.
  intros Hafter.
  destruct (split_last_part 44 before after Hafter) as (parts & _ & Hsplit).
  unfold extractCountryFromBirthPlace.
  rewrite Hsplit, (split_no_separator 44 after Hafter).
  rewrite fmap_app. change (trim <$> [after]) with [trim after].
  rewrite last_snoc. cbn [last].
  split; intros Htrim.
  - by destruct (trim after).
  - by rewrite Htrim.
Qed.

Lemma extractCountryFromBirthPlace_last_part_witness :
  (44 ∉ str " USA")
  /\ extractCountryFromBirthPlace (str "Concord, California, USA") = str "USA".
Proof.
  assert (Hno : 44 ∉ str " USA").
  { intros Hin. vm_compute in Hin.
    repeat (apply elem_of_cons in Hin as [Hin | Hin]; [discriminate Hin|]).
    by apply not_elem_of_nil in Hin. }
  split; [exact Hno|].
  destruct (extractCountryFromBirthPlace_last_part (str "Concord, California")
              (str " USA") Hno) as [Hlast _].
  destruct Hlast as [Hlast _]; [vm_compute; discriminate|].
  exact Hlast.
Defined.

(** *** Known-for titles *)

Lemma filter_score_popularity (q : Q) (l : list RawTitleCredit) :
  (forall credit, credit ∈ l ->
     (knownForScore credit == numOr0 (tc_popularity credit))%Q) ->
  filter (fun credit => (knownForScore credit == q)%Q) l
  = filter (fun credit => (numOr0 (tc_popularity credit) == q)%Q) l.
Proof.
  induction l as [|credit l IH]; intros Hscore; [reflexivity|].
  rewrite !filter_cons, IH by (intros c Hc; apply Hscore; by right).
  pose proof (Hscore credit ltac:(by left)) as Heq.
  destruct (decide (knownForScore credit == q)%Q) as [Hq|Hq];
    destruct (decide (numOr0 (tc_popularity credit) == q)%Q) as [Hp|Hp];
    try reflexivity; exfalso.
  - apply Hp. by rewrite <- Heq.
  - apply Hq. by rewrite Heq.
Qed.

Lemma StronglySorted_impl_elem {A} (R R' : A -> A -> Prop) (l : list A) :
  (forall x y, x ∈ l -> y ∈ l -> R x y -> R' x y) ->
  StronglySorted R l -> StronglySorted R' l.
Proof.
  intros Himpl Hsorted.
  induction Hsorted as [|x l Hsorted IH Hall]; constructor.
  - apply IH. intros a b Ha Hb. apply Himpl; by right.
  - rewrite Forall_forall in Hall. apply Forall_forall. intros y Hy.
    apply Himpl; [by left | by right | by apply Hall].
Qed.

(** X20. The known-for titles are conversions of credits of the payload, cast
    and crew together, each credit used at most once: ten of them, or all
    when there are fewer. Without credits there is no title. *)
Theorem extractKnownForTitles_top_ten (credits : RawCombinedCredits) :
  let allCredits :=
    default [] (cc_cast credits) ++ default [] (cc_crew credits) in
  extractKnownForTitles None = []
  /\ exists kept rest,
       extractKnownForTitles (Some credits) = relatedOf <$> kept
       /\ kept ++ rest ≡ₚ allCredits
       /\ length kept = Nat.min 10 (length allCredits)
       /\ length (extractKnownForTitles (Some credits))
          = Nat.min 10 (length allCredits).
Proof.
  cbn zeta. split; [reflexivity|].
  set (allCredits := default [] (cc_cast credits) ++ default [] (cc_crew credits)).
  set (sorted := Provider.Array_sort
                   (fun a b => (knownForScore b - knownForScore a)%Q)
                   allCredits).
  assert (Hperm : sorted ≡ₚ allCredits)
    by apply (Array_sort_Permutation knownForScore).
  exists (take 10 sorted), (drop 10 sorted).
  split; [reflexivity|]. split; [by rewrite take_drop|].
  unfold extractKnownForTitles, sortedCredits. fold allCredits. fold sorted.
  by rewrite length_fmap, length_take, Hperm.
Qed.

(** X21. When no credit of the payload has votes, the score of a credit is its
    popularity: the titles come in non-increasing order of popularity, the
    credits of one popularity in the order of the payload, and no credit
    left out is more popular than a credit kept. *)
Theorem extractKnownForTitles_by_popularity (credits : RawCombinedCredits)
    (Hvotes : Forall (fun credit => (numOr0 (tc_vote_count credit) == 0)%Q)
                (default [] (cc_cast credits) ++ default [] (cc_crew credits))) :
  let allCredits :=
    default [] (cc_cast credits) ++ default [] (cc_crew credits) in
  let popularityOf := fun credit => numOr0 (tc_popularity credit) in
  exists kept rest,
    extractKnownForTitles (Some credits) = relatedOf <$> kept
    /\ kept = take 10 (kept ++ rest)
    /\ kept ++ rest ≡ₚ allCredits
    /\ StronglySorted (notBelow popularityOf) (kept ++ rest)
    /\ (forall q, filter (fun credit => (popularityOf credit == q)%Q)
                         (kept ++ rest)
                  = filter (fun credit => (popularityOf credit == q)%Q)
                           allCredits).
Proof.
  cbn zeta.
  set (allCredits := default [] (cc_cast credits) ++ default [] (cc_crew credits))
    in *.
  set (sorted := Provider.Array_sort
                   (fun a b => (knownForScore b - knownForScore a)%Q)
                   allCredits).
  assert (Hperm : sorted ≡ₚ allCredits)
    by apply (Array_sort_Permutation knownForScore).
  assert (Hsorted : StronglySorted (notBelow knownForScore) sorted)
    by apply (Array_sort_sorted knownForScore).
  assert (Hscore : forall credit, credit ∈ allCredits ->
            (knownForScore credit == numOr0 (tc_popularity credit))%Q).
  { intros credit Hin. rewrite Forall_forall in Hvotes.
    unfold knownForScore. rewrite (Hvotes credit Hin). ring. }
  exists (take 10 sorted), (drop 10 sorted). rewrite take_drop.
  split; [reflexivity|]. split; [reflexivity|]. split; [exact Hperm|]. split.
  - apply (StronglySorted_impl_elem (notBelow knownForScore)); [|exact Hsorted].
    intros x y Hx Hy. unfold notBelow.
    rewrite !Hscore by (by rewrite <- Hperm). done.
  - intros q.
    pose proof (Array_sort_stable knownForScore q allCredits) as Hstable.
    change (Provider.Array_sort (descending knownForScore) allCredits)
      with sorted in Hstable.
    rewrite (filter_score_popularity q sorted),
      (filter_score_popularity q allCredits) in Hstable;
      [exact Hstable| |].
    + intros credit Hin. by apply Hscore.
    + intros credit Hin. apply Hscore. by rewrite <- Hperm.
Qed.

Lemma extractKnownForTitles_by_popularity_witness :
  Forall (fun credit => (numOr0 (tc_vote_count credit) == 0)%Q)
    (default [] (cc_cast sampleTitles) ++ default [] (cc_crew sampleTitles))
  /\ exists kept rest,
       extractKnownForTitles (Some sampleTitles) = relatedOf <$> kept
       /\ StronglySorted
            (notBelow (fun credit => numOr0 (tc_popularity credit)))
            (kept ++ rest).
Proof.
  assert (Hvotes : Forall (fun credit => (numOr0 (tc_vote_count credit) == 0)%Q)
                     (default [] (cc_cast sampleTitles)
                      ++ default [] (cc_crew sampleTitles)))
    by (repeat constructor).
  split; [exact Hvotes|].
  destruct (extractKnownForTitles_by_popularity sampleTitles Hvotes)
    as (kept & rest & Htitles & _ & _ & Hsorted & _).
  exists kept, rest. split; [exact Htitles | exact Hsorted].
Defined.

(** The sample titles come out the more popular first, each with the
    year of its date. *)
Example extractKnownForTitles_sample :
  (fun title => (rel_name title, rel_year title))
  <$> extractKnownForTitles (Some sampleTitles)
  = [ (str "Forrest Gump", Some 1994%Z); (str "Big", Some 1988%Z) ].
Proof. vm_compute. reflexivity. Qed.

(** *** The projection of a person *)

Lemma strOr_Some_nil (s : jsstring) : strOr (Some s) [] = s.
Proof. by destruct s. Qed.

Lemma strOr_fallback (x : option jsstring) (d : jsstring) :
  truthy x = None -> strOr x d = d.
Proof. by destruct x as [[|c r]|]. Qed.

Section PersonProjection.

Variable toLowerCase : jsstring -> jsstring.

(** X22. From a person details payload to the presentation record. The
    alternate names shown are the deduplicated Latin names, in the short
    mode, although the conversion and the projection both deduplicate;
    the aliases are the primary name followed by those names; the sex
    label follows the gender code; the place fields repeat the birth and
    death places, and the hometown falls back to the birth place; without
    a department the department shown is Acting. *)
Theorem person_projection (details : RawPersonDetails)
    (images : option RawPersonImages) (userRating : option Q) :
  let f :=
    ms_actorFields
      (createMovieShowFrom toLowerCase
         (convertPersonToTMDBFormat toLowerCase details images) userRating) in
  let english :=
    extractEnglishNamesOnly toLowerCase (default [] (pd_also_known_as details)) in
  alsoKnownAs f = short english
  /\ allNames f
     = combineNamesForAliases toLowerCase [strOr (pd_name details) []] english
  /\ sex f
     = [ if bool_decide (pd_gender details = Some 1%Z) then ru_female
         else if bool_decide (pd_gender details = Some 2%Z) then ru_male
         else ru_unspecified ]
  /\ popularity f = numOr0 (pd_popularity details)
  /\ placeOfBirth f = birthPlace f
  /\ placeOfDeath f = deathPlace f
  /\ birthPlace f = short [strOr (pd_place_of_birth details) []]
  /\ (truthy (pd_hometown details) = None -> hometown f = birthPlace f)
  /\ (truthy (pd_known_for_department details) = None ->
      truthy (pd_knownForDepartment details) = None ->
      knownForDepartment f = [str "Acting"] /\ growth f = []).
Proof.
  cbn zeta. unfold createMovieShowFrom, actorFieldsOf, convertPersonToTMDBFormat.
  cbn [ms_actorFields fi_type fi_gender fi_alsoKnownAs fi_name fi_rating_tmdb
       fi_birthPlace fi_deathPlace fi_hometown fi_slogan fi_knownForDepartment
       fi_premiere_world fi_deathday fi_TMDBLink fi_description fi_homepage
       fi_externalId_imdb].
  rewrite bool_decide_eq_true_2 by reflexivity.
  cbn [alsoKnownAs allNames sex popularity placeOfBirth placeOfDeath birthPlace
       deathPlace hometown knownForDepartment growth default].
  unfold id. rewrite !extractEnglishNamesOnly_again, !strOr_Some_nil.
  split; [reflexivity|]. split; [reflexivity|]. split.
  { repeat case_bool_decide; vm_compute; reflexivity. }
  split; [reflexivity|]. split; [reflexivity|]. split; [reflexivity|].
  split; [reflexivity|]. split.
  - intros Hhome. rewrite (strOr_fallback _ _ Hhome).
    by destruct (strOr (pd_place_of_birth details) []).
  - intros Hd1 Hd2. rewrite !(strOr_fallback _ _ Hd1), !(strOr_fallback _ _ Hd2).
    split; vm_compute; reflexivity.
Qed.

End PersonProjection.

(** *** Facts *)

Lemma removeTags_plain (s : jsstring) : 60 ∉ s -> removeTags false s = s.
Proof.
  induction s as [|c s IH]; [reflexivity|].
  intros [Hc Hs]%not_elem_of_cons. cbn [removeTags].
  rewrite (proj2 (N.eqb_neq c 60)) by congruence. cbn [andb]. by rewrite IH.
Qed.

Lemma replaceAll_plain (pattern replacement s : jsstring) :
  38 ∉ s -> replaceAll (38 :: pattern) replacement 0 s = s.
Proof.
  induction s as [|c s IH]; [reflexivity|].
  intros [Hc Hs]%not_elem_of_cons. cbn [replaceAll startsWith].
  rewrite (proj2 (N.eqb_neq c 38)) by congruence. cbn [andb]. by rewrite IH.
Qed.

Lemma replaceEntities_plain (entities : list (jsstring * jsstring))
    (s : jsstring) :
  Forall (fun entity => exists pattern, entity.1 = 38 :: pattern) entities ->
  38 ∉ s ->
  foldl (fun cleanText entity => replaceAll entity.1 entity.2 0 cleanText)
        s entities
  = s.
Proof.
  intros Hall Hs. induction Hall as [|entity entities [pattern Hp] _ IH];
    [reflexivity|].
  cbn [foldl]. rewrite Hp, replaceAll_plain by exact Hs. exact IH.
Qed.

Lemma HTML_ENTITIES_ampersand :
  Forall (fun entity => exists pattern, entity.1 = 38 :: pattern) HTML_ENTITIES.
Proof. unfold HTML_ENTITIES. repeat constructor; eexists; reflexivity. Qed.

Lemma removeEntities_plain (s : jsstring) : 38 ∉ s -> removeEntities 0 s = s.
Proof.
  induction s as [|c s IH]; [reflexivity|].
  intros [Hc Hs]%not_elem_of_cons. cbn [removeEntities].
  rewrite (proj2 (N.eqb_neq c 38)) by congruence. by rewrite IH.
Qed.

Lemma stripHtmlTags_plain (text : jsstring) :
  60 ∉ text -> 38 ∉ text -> stripHtmlTags text = trim text.
Proof.
  intros Hlt Hamp. unfold stripHtmlTags.
  rewrite removeTags_plain by exact Hlt.
  rewrite (replaceEntities_plain _ _ HTML_ENTITIES_ampersand Hamp).
  by rewrite removeEntities_plain.
Qed.

(** X23. [processFacts] keeps at most five facts, in the order of the input,
    none of them flagged as a spoiler and none of them blank; a kept fact
    whose text has neither a [<] nor an ampersand is shown as its trimmed
    text, with nothing removed inside it. *)
Theorem processFacts_result (facts : list Fact) :
  (length (processFacts facts) <= 5)%nat
  /\ exists kept,
       processFacts facts = (fun fact => stripHtmlTags (fact_value fact)) <$> kept
       /\ kept `sublist_of` facts
       /\ Forall (fun fact =>
                    fact_spoiler fact <> Some true
                    /\ nonBlank (fact_value fact)
                    /\ (60 ∉ fact_value fact -> 38 ∉ fact_value fact ->
                        stripHtmlTags (fact_value fact)
                        = trim (fact_value fact))) kept.
Proof.
  unfold processFacts. split.
  - rewrite length_fmap, length_take. unfold MAX_FACTS_COUNT. lia.
  - exists (take MAX_FACTS_COUNT (filter keptFact facts)).
    split; [reflexivity|]. split.
    + etrans; [apply sublist_take | apply sublist_filter].
    + apply Forall_take, Forall_forall.
      intros fact [(Hspoiler & _ & Hblank) _]%list_elem_of_filter.
      split; [exact Hspoiler|]. split; [exact Hblank|].
      apply stripHtmlTags_plain.
Qed.

(** Tags and known entities are removed or decoded, and an entity that
    decodes to an angle bracket leaves the bracket in the text. *)
Example stripHtmlTags_markup :
  stripHtmlTags (str " <b>Tom</b> &amp; Jerry &#169;x &unknown; ")
  = str "Tom & Jerry x"
  /\ stripHtmlTags (str "&lt;i&gt;") = str "<i>".
Proof. split; vm_compute; reflexivity. Qed.

(** The year of a related title is read from the first four units of its
    date. *)
Example parseInt_year :
  parseInt (take 4 (str "1994-07-06")) = Some 1994%Z
  /\ parseInt (take 4 (str "n/a")) = None.
Proof. split; vm_compute; reflexivity. Qed.

End FormatterMoreProps.

(** ** More properties of the catalog client *)

Module ProviderMoreProps.

Import Formatter Provider Spec Samples MoreSamples JSProps JSMoreProps ProviderProps.

Section ClientMore.

Variable isValidToken : jsstring -> bool.
Variable isValidSearchQuery : jsstring -> bool.
Variable isValidMovieId : Z -> bool.
Variable requestUrl : Request -> nat * (TransportFailure + Json).
Variable toLowerCase : jsstring -> jsstring.
Variable convertPersonToTMDBFormat : Json -> Json -> Json -> TMDBFullInfo.
Variable scoreOf : SearchItem -> jsstring -> Q.

(** *** Invalid input *)

(** X1. Invalid input never reaches the transport: a rejected query, id or
    token makes the public methods settle at once, the search and the
    record fetch with the error of the failed check, and the list of
    issued requests is left as it was. *)
Theorem invalid_input_issues_no_request (query token : jsstring) (pid : Z)
    (userRating : option Q) (log : list Request) :
  (isValidSearchQuery query = false ->
   searchByQuery isValidToken isValidSearchQuery requestUrl scoreOf
     query token log
   = (mkPromise 0 (inl EnterMovieTitle), log))
  /\ (isValidSearchQuery query = true -> isValidToken token = false ->
      searchByQuery isValidToken isValidSearchQuery requestUrl scoreOf
        query token log
      = (mkPromise 0 (inl TokenRequired), log))
  /\ (isValidMovieId pid = false ->
      getMovieById isValidToken isValidMovieId requestUrl toLowerCase
        convertPersonToTMDBFormat pid token userRating log
      = (mkPromise 0 (inl InvalidMovieId), log))
  /\ (isValidMovieId pid = true -> isValidToken token = false ->
      getMovieById isValidToken isValidMovieId requestUrl toLowerCase
        convertPersonToTMDBFormat pid token userRating log
      = (mkPromise 0 (inl TokenRequiredForMovie), log))
  /\ (isValidToken token = false ->
      (getAllImages isValidToken requestUrl pid token log).2 = log
      /\ validateToken isValidToken requestUrl token log
         = (mkPromise 0 (inr false), log)).
Proof.
  split; [|split; [|split; [|split]]].
  - intros Hq. unfold searchByQuery. by rewrite Hq.
  - intros Hq Ht. unfold searchByQuery, await. rewrite Hq. cbn [negb].
    by rewrite apiGet_invalid.
  - intros Hid. unfold getMovieById. by rewrite Hid.
  - intros Hid Ht. unfold getMovieById. by rewrite Hid, Ht.
  - intros Ht. split.
    + unfold getAllImages, tryCatch, await. by rewrite apiGet_invalid.
    + unfold validateToken. by rewrite Ht.
Qed.

(** *** The requests *)

Lemma setParam_elem (key value : jsstring) (params : list (jsstring * jsstring)) :
  (key, value) ∈ setParam key value params.
Proof.
  induction params as [|[k v] rest IH]; cbn; [by left|].
  case_bool_decide as Hk; [subst; by left | by right].
Qed.

Lemma setParam_key (key value v : jsstring)
    (params : list (jsstring * jsstring)) :
  NoDup params.*1 -> (key, v) ∈ setParam key value params -> v = value.
Proof.
  induction params as [|[k w] rest IH]; cbn; intros Hnd Hin.
  - apply list_elem_of_singleton in Hin. congruence.
  - apply NoDup_cons in Hnd as [Hk Hnd]. case_bool_decide as Hkey.
    + subst k. apply elem_of_cons in Hin as [Heq | Hin]; [congruence|].
      exfalso. apply Hk. apply list_elem_of_fmap. by exists (key, v).
    + apply elem_of_cons in Hin as [Heq | Hin]; [congruence|]. by apply IH.
Qed.

Lemma setParam_other (key value k v : jsstring)
    (params : list (jsstring * jsstring)) :
  k <> key -> ((k, v) ∈ setParam key value params <-> (k, v) ∈ params).
Proof.
  intros Hne. induction params as [|[k' w] rest IH]; cbn.
  - split; [|by intros ?%not_elem_of_nil].
    intros Hin%list_elem_of_singleton. congruence.
  - case_bool_decide as Hkey.
    + subst k'. rewrite !elem_of_cons. split; intros [Heq | Hin]; try by right.
      all: congruence.
    + rewrite !elem_of_cons, IH. reflexivity.
Qed.

(** X2. Every request of [apiGet] carries the fixed locale and the bearer
    token: whatever parameters the caller passes, the language sent is
    ru-RU and no other; the caller's other parameters are sent as they
    are, except those with an empty value, which are not sent. *)
Theorem apiGet_request_parameters (endpoint token : jsstring)
    (params : list (jsstring * jsstring)) (log : list Request) :
  isValidToken token = true ->
  NoDup params.*1 ->
  exists request,
    (apiGet isValidToken requestUrl endpoint token params log).2
    = log ++ [request]
    /\ href_path (req_url request) = API_BASE_URL ++ endpoint
    /\ req_authorization request = str "Bearer " ++ token
    /\ (str "language", LANGUAGE) ∈ searchParams (req_url request)
    /\ (forall v, (str "language", v) ∈ searchParams (req_url request) ->
                  v = LANGUAGE)
    /\ (forall k v, k <> str "language" ->
          ((k, v) ∈ searchParams (req_url request)
           <-> (k, v) ∈ params /\ v <> [])).
Proof.
  clear isValidSearchQuery isValidMovieId toLowerCase convertPersonToTMDBFormat
        scoreOf.
  intros Htoken Hnd. exists (requestFor endpoint token params).
  rewrite apiGet_run by exact Htoken. cbn [snd].
  split; [reflexivity|]. split; [reflexivity|]. split; [reflexivity|].
  unfold requestFor, buildUrl. cbn [req_url searchParams].
  split; [|split].
  - apply list_elem_of_filter. split; [by vm_compute|apply setParam_elem].
  - intros v [_ Hin]%list_elem_of_filter. by eapply setParam_key.
  - intros k v Hk. rewrite list_elem_of_filter, setParam_other by exact Hk.
    cbn. tauto.
Qed.

(** X3. A valid search issues one request and no more, whatever the transport
    answers: to the person search, with the trimmed query, page 1 and the
    locale, in this order. *)
Theorem searchByQuery_single_request (query token : jsstring)
    (log : list Request) :
  isValidSearchQuery query = true ->
  isValidToken token = true ->
  exists request,
    (searchByQuery isValidToken isValidSearchQuery requestUrl scoreOf
       query token log).2
    = log ++ [request]
    /\ href_path (req_url request)
       = str "https://api.themoviedb.org/3/search/person"
    /\ searchParams (req_url request)
       = match trim query with
         | [] => []
         | q => [(str "query", q)]
         end
         ++ [(str "page", str "1"); (str "language", str "ru-RU")]
    /\ req_authorization request = str "Bearer " ++ token.
Proof.
  intros Hquery Htoken.
  exists (requestFor (str "/search/person") token
            [(str "query", trim query); (str "page", Number_toString 1)]).
  split.
  - unfold searchByQuery. rewrite Hquery. cbn [negb].
    rewrite await_requests.
    + by rewrite apiGet_run.
    + intros response l.
      destruct response as [|results| |]; try reflexivity;
        by destruct (take _ _).
  - split; [by vm_compute|]. split; [|reflexivity].
    unfold requestFor, buildUrl. cbn [req_url searchParams].
    destruct (trim query) as [|c q]; vm_compute; reflexivity.
Qed.

(** *** The image listing *)

Lemma extractImageData_all (imageArray : list RawImage) :
  extractImageData imageArray
  = (fun img =>
       {| img_url := Provider.IMAGE_BASE_URL ++ str "original" ++ file_path img;
          img_language := truthy (iso_639_1 img) |})
    <$> imageArray.
Proof.
  unfold extractImageData.
  induction imageArray as [|img rest IH]; [reflexivity|].
  rewrite fmap_cons, filter_cons, IH. rewrite decide_True; [reflexivity|].
  cbn [img_url]. split.
  - by vm_compute.
  - unfold nonBlank. by apply trim_cons_nonblank.
Qed.

(** X6. When the image listing answers, [getAllImages] keeps every image, in
    order: the profiles as posters and the tagged images as backdrops,
    each with the address of its original size and its language tag; the
    filter on blank addresses removes nothing, and there is no logo. *)
Theorem getAllImages_keeps_every_image (pid : Z) (token : jsstring)
    (profiles tagged : option (list RawImage)) (t : nat)
    (log : list Request) :
  isValidToken token = true ->
  requestUrl (imagesRequest pid token) = (t, inr (JImages profiles tagged)) ->
  let info := fun img =>
    {| img_url := str "https://image.tmdb.org/t/p/original" ++ file_path img;
       img_language := truthy (iso_639_1 img) |} in
  outcome (getAllImages isValidToken requestUrl pid token log).1
  = inr {| bucket_posters := info <$> default [] profiles;
           bucket_backdrops := info <$> default [] tagged;
           bucket_logos := [] |}
  /\ (getAllImages isValidToken requestUrl pid token log).2
     = log ++ [imagesRequest pid token].
Proof.
  intros Htoken Hanswer. cbn zeta. unfold getAllImages. split.
  - rewrite tryCatch_outcome, await_outcome, apiGet_run by exact Htoken.
    fold (imagesRequest pid token). rewrite Hanswer.
    cbn [fst snd outcome answerOf]. rewrite !extractImageData_all.
    reflexivity.
  - unfold tryCatch, await. rewrite apiGet_run by exact Htoken.
    fold (imagesRequest pid token). rewrite Hanswer. reflexivity.
Qed.

(** *** The token probe *)

(** X7. [validateToken] answers true exactly when the token passes the local
    check and the probe of the configuration endpoint succeeds; it issues
    that one request when the local check passes. *)
Theorem validateToken_result (token : jsstring) (log : list Request) :
  outcome (validateToken isValidToken requestUrl token log).1
  = inr (isValidToken token
         && match (requestUrl (configurationRequest token)).2 with
            | inr _ => true
            | inl _ => false
            end)
  /\ (validateToken isValidToken requestUrl token log).2
     = if isValidToken token then log ++ [configurationRequest token] else log.
Proof.
  unfold validateToken. destruct (isValidToken token) eqn:Htoken; cbn [negb andb].
  - split.
    + rewrite tryCatch_outcome, await_outcome, apiGet_run by exact Htoken.
      fold (configurationRequest token). cbn [fst snd outcome].
      by destruct (requestUrl (configurationRequest token)).2.
    + unfold tryCatch, await. rewrite apiGet_run by exact Htoken.
      fold (configurationRequest token). cbn [fst snd outcome].
      by destruct (requestUrl (configurationRequest token)).2.
  - by split.
Qed.

(** *** The ranking *)

(** X4. With at most twenty results, and at least one, the search returns
    every result of the response exactly once: the items are the
    converted results, reordered. *)
Theorem searchByQuery_returns_every_result (query token : jsstring)
    (results : list SearchItem) (t : nat) (log : list Request) :
  isValidSearchQuery query = true ->
  isValidToken token = true ->
  requestUrl
    (requestFor (str "/search/person") token
       [(str "query", trim query); (str "page", Number_toString 1)])
  = (t, inr (JSearch (Some results))) ->
  results <> [] ->
  (length results <= 20)%nat ->
  exists items,
    outcome
      (searchByQuery isValidToken isValidSearchQuery requestUrl scoreOf
         query token log).1
    = inr items
    /\ items ≡ₚ convertToSuggestItem <$> results.
Proof.
  intros Hquery Htoken Hanswer Hne Hlen.
  set (ranked := rankedEntries scoreOf query results).
  assert (Hperm : ranked ≡ₚ scoredEntries scoreOf query results)
    by apply (Array_sort_Permutation score).
  exists (item <$> ranked). split.
  - unfold searchByQuery. rewrite Hquery. cbn [negb].
    rewrite await_outcome, apiGet_run by exact Htoken. rewrite Hanswer.
    cbn [fst snd answerOf outcome]. fold ranked.
    rewrite take_ge.
    + destruct (item <$> ranked) as [|i rest] eqn:Hitems; [|reflexivity].
      exfalso. apply fmap_nil_inv in Hitems. rewrite Hitems in Hperm.
      apply Permutation_nil_l in Hperm. unfold scoredEntries in Hperm.
      symmetry in Hperm. apply fmap_nil_inv in Hperm. contradiction.
    + rewrite length_fmap, Hperm. unfold scoredEntries.
      rewrite length_fmap. exact Hlen.
  - rewrite Hperm. unfold scoredEntries. rewrite <- list_fmap_compose.
    reflexivity.
Qed.


End ClientMore.

(** *** The theorems at sample inputs *)

Lemma apiGet_request_parameters_witness :
  notBlank (str "token") = true
  /\ NoDup [(str "query", str "Tom")].*1
  /\ exists request,
       (apiGet notBlank offline (str "/search/person") (str "token")
          [(str "query", str "Tom")] []).2
       = [request]
       /\ (str "language", LANGUAGE) ∈ searchParams (req_url request).
Proof.
  assert (Htoken : notBlank (str "token") = true) by (vm_compute; reflexivity).
  assert (Hnd : NoDup [(str "query", str "Tom")].*1)
    by (apply NoDup_singleton).
  split; [exact Htoken|]. split; [exact Hnd|].
  destruct (apiGet_request_parameters notBlank offline (str "/search/person")
              (str "token") [(str "query", str "Tom")] [] Htoken Hnd)
    as (request & Hlog & _ & _ & Hlang & _).
  exists request. split; [exact Hlog | exact Hlang].
Defined.

Lemma searchByQuery_single_request_witness :
  notBlank (str "Tom") = true
  /\ notBlank (str "token") = true
  /\ exists request,
       (searchByQuery notBlank notBlank offline
          (calculateRelevanceScore asciiToLowerCase)
          (str "Tom") (str "token") []).2
       = [request]
       /\ req_authorization request = str "Bearer " ++ str "token".
Proof.
  assert (Hquery : notBlank (str "Tom") = true) by (vm_compute; reflexivity).
  assert (Htoken : notBlank (str "token") = true) by (vm_compute; reflexivity).
  split; [exact Hquery|]. split; [exact Htoken|].
  destruct (searchByQuery_single_request notBlank notBlank offline
              (calculateRelevanceScore asciiToLowerCase) (str "Tom") (str "token") [] Hquery Htoken)
    as (request & Hlog & _ & _ & Hauth).
  exists request. split; [exact Hlog | exact Hauth].
Defined.

Lemma getAllImages_keeps_every_image_witness :
  notBlank (str "token") = true
  /\ outcome (getAllImages notBlank imagesAnswer 31 (str "token") []).1
     = inr {| bucket_posters :=
                [ {| img_url := str "https://image.tmdb.org/t/p/original/fr.jpg";
                     img_language := Some (str "fr") |} ];
              bucket_backdrops := [];
              bucket_logos := [] |}.
Proof.
  assert (Htoken : notBlank (str "token") = true) by (vm_compute; reflexivity).
  split; [exact Htoken|].
  exact (proj1 (getAllImages_keeps_every_image notBlank imagesAnswer 31
                  (str "token") (Some [image_fr]) None 1 [] Htoken eq_refl)).
Defined.

Lemma searchByQuery_returns_every_result_witness :
  notBlank (str "Tom") = true
  /\ notBlank (str "token") = true
  /\ exists items,
       outcome
         (searchByQuery notBlank notBlank searchAnswers
            (calculateRelevanceScore asciiToLowerCase)
            (str "Tom") (str "token") []).1
       = inr items
       /\ items ≡ₚ convertToSuggestItem <$> [tom_hanks; tom].
Proof.
  assert (Hquery : notBlank (str "Tom") = true) by (vm_compute; reflexivity).
  assert (Htoken : notBlank (str "token") = true) by (vm_compute; reflexivity).
  split; [exact Hquery|]. split; [exact Htoken|].
  apply (searchByQuery_returns_every_result notBlank notBlank searchAnswers
           (calculateRelevanceScore asciiToLowerCase) (str "Tom") (str "token") [tom_hanks; tom] 1 []
           Hquery Htoken eq_refl).
  - discriminate.
  - cbn. lia.
Defined.

End ProviderMoreProps.
